(** * Metadata Table Editor: a shallow embedding of [src/App.vue]

    The script block of [App.vue] is embedded function by function.
    JavaScript strings are [string]s (sequences of bytes, read as UTF-8), row
    records are ordered property lists living in a store of objects, the
    browser (query string, local storage, network, identity provider,
    delimited-text parser) is an explicit environment, and every handler is
    a computation in a state-and-exception monad over the application
    state. *)

From Stdlib Require Import ZArith NArith Ascii String.
From Stdlib Require Import Decimal DecimalString DecimalPos DecimalN DecimalZ.
From stdpp Require Import base option list gmap strings.

(** ** Strings *)

Module Js.

(** The double quote and the backslash, named once. *)
Definition dquote : ascii := ascii_of_nat 34.
Definition backslash : ascii := ascii_of_nat 92.

(** One code unit of [String.prototype.toLowerCase].  Only the letters
    [A]..[Z] are mapped; bytes of other characters are kept.  The strings
    that lower to ["id"] are its four spellings in either case, here as in
    the source (no other character lowers to [i] or to [d] alone), so the
    comparison of the result with ["id"] is that of the source. *)
Definition lower_ascii (c : ascii) : ascii :=
  let n := nat_of_ascii c in
  if (65 <=? n)%nat && (n <=? 90)%nat then ascii_of_nat (n + 32) else c.

Fixpoint toLowerCase (s : string) : string :=
  match s with
  | EmptyString => EmptyString
  | String c r => String (lower_ascii c) (toLowerCase r)
  end.

(** [s.replace(/\/$/, '')]: the first position at which a slash is
    followed by the end of the input is removed. *)
Fixpoint replace_trailing_slash (s : string) : string :=
  match s with
  | EmptyString => EmptyString
  | String c r =>
      if Ascii.eqb c "/" && String.eqb r EmptyString then EmptyString
      else String c (replace_trailing_slash r)
  end.

(** [arr.join(sep)] on strings. *)
Fixpoint join (sep : string) (l : list string) : string :=
  match l with
  | [] => ""
  | [x] => x
  | x :: r => x +:+ sep +:+ join sep r
  end.

(** Decimal rendering of an integer-valued number. *)
Definition string_of_Z (z : Z) : string := NilZero.string_of_int (Z.to_int z).

End Js.

(** ** JSON values *)

(** What [JSON.parse] and [Response.json] deliver.  [JNum] carries an
    integer-valued number (of magnitude below 10^21, where JavaScript
    prints plain decimals); other numbers do not occur in this program. *)
Unset Elimination Schemes.
Inductive json : Type :=
  | JNull
  | JBool (b : bool)
  | JNum (z : Z)
  | JString (s : string)
  | JArray (l : list json)
  | JObject (l : list (string * json)).
Set Elimination Schemes.

(** A JavaScript value read out of a [json] object: [None] is
    [undefined]. *)
Definition jsval := option json.

Module Value.

(** [String(v)], as a template literal applies it. *)
Fixpoint to_string (j : json) : string :=
  match j with
  | JNull => "null"
  | JBool true => "true"
  | JBool false => "false"
  | JNum z => Js.string_of_Z z
  | JString s => s
  | JArray l =>
      Js.join "," (map (fun x => match x with JNull => "" | _ => to_string x end) l)
  | JObject _ => "[object Object]"
  end.

Definition to_string_val (v : jsval) : string :=
  match v with
  | None => "undefined"
  | Some j => to_string j
  end.

(** Own-property lookup in an ordered property list; the first entry
    with the key is the property. *)
Fixpoint get {A} (o : list (string * A)) (k : string) : option A :=
  match o with
  | [] => None
  | (k', v) :: r => if String.eqb k' k then Some v else get r k
  end.

(** [o[k] = v]: an existing property keeps its place, a new one is
    appended. *)
Fixpoint set {A} (o : list (string * A)) (k : string) (v : A) : list (string * A) :=
  match o with
  | [] => [(k, v)]
  | (k', v') :: r => if String.eqb k' k then (k', v) :: r else (k', v') :: set r k v
  end.

End Value.

(** ** JSON text *)

Module JSON.

Import Js.

(** *** [JSON.stringify] *)

Definition hex_digit (n : N) : ascii :=
  if (n <? 10)%N then ascii_of_N (48 + n)%N else ascii_of_N (87 + n)%N.

(** [QuoteJSONString], one character. *)
Definition escape_char (c : ascii) : string :=
  let n := N_of_ascii c in
  if Ascii.eqb c dquote then String backslash (String dquote "")
  else if Ascii.eqb c backslash then String backslash (String backslash "")
  else if (n =? 8)%N then String backslash "b"
  else if (n =? 9)%N then String backslash "t"
  else if (n =? 10)%N then String backslash "n"
  else if (n =? 12)%N then String backslash "f"
  else if (n =? 13)%N then String backslash "r"
  else if (n <? 32)%N then
    String backslash (String "u" (String "0" (String "0"
      (String (hex_digit (n / 16)%N) (String (hex_digit (n mod 16)%N) "")))))
  else String c "".

Fixpoint escape (s : string) : string :=
  match s with
  | EmptyString => EmptyString
  | String c r => escape_char c +:+ escape r
  end.

Definition quote (s : string) : string :=
  String dquote (escape s +:+ String dquote "").

Fixpoint stringify (j : json) : string :=
  match j with
  | JNull => "null"
  | JBool true => "true"
  | JBool false => "false"
  | JNum z => string_of_Z z
  | JString s => quote s
  | JArray l => "[" +:+ join "," (map stringify l) +:+ "]"
  | JObject l =>
      "{" +:+ join "," (map (fun kv => quote (fst kv) +:+ ":" +:+ stringify (snd kv)) l) +:+ "}"
  end.

(** *** [JSON.parse] *)

Definition is_ws (c : ascii) : bool :=
  let n := N_of_ascii c in
  (n =? 32)%N || (n =? 9)%N || (n =? 10)%N || (n =? 13)%N.

Fixpoint skip_ws (s : string) : string :=
  match s with
  | EmptyString => EmptyString
  | String c r => if is_ws c then skip_ws r else s
  end.

Definition hex_val (c : ascii) : option N :=
  let n := N_of_ascii c in
  if (48 <=? n)%N && (n <=? 57)%N then Some (n - 48)%N
  else if (97 <=? n)%N && (n <=? 102)%N then Some (n - 87)%N
  else if (65 <=? n)%N && (n <=? 70)%N then Some (n - 55)%N
  else None.

(** The bytes of the character with code [n] below 65536.  A surrogate
    half has no bytes of its own: an escaped character beyond the basic
    plane is outside this model and parsing it fails. *)
Definition utf8_encode (n : N) : option string :=
  if (n <? 128)%N then Some (String (ascii_of_N n) "")
  else if (n <? 2048)%N then
    Some (String (ascii_of_N (192 + n / 64)%N) (String (ascii_of_N (128 + n mod 64)%N) ""))
  else if (55296 <=? n)%N && (n <? 57344)%N then None
  else
    Some (String (ascii_of_N (224 + n / 4096)%N)
           (String (ascii_of_N (128 + (n / 64) mod 64)%N)
             (String (ascii_of_N (128 + n mod 64)%N) ""))).

Definition unescape (e : ascii) : option ascii :=
  if Ascii.eqb e dquote then Some dquote
  else if Ascii.eqb e backslash then Some backslash
  else if Ascii.eqb e "/" then Some "/"%char
  else if Ascii.eqb e "b" then Some (ascii_of_N 8%N)
  else if Ascii.eqb e "t" then Some (ascii_of_N 9%N)
  else if Ascii.eqb e "n" then Some (ascii_of_N 10%N)
  else if Ascii.eqb e "f" then Some (ascii_of_N 12%N)
  else if Ascii.eqb e "r" then Some (ascii_of_N 13%N)
  else None.

(** The characters of a string literal after its opening quote, and what
    follows the closing quote. *)
Fixpoint parse_string_body (s : string) : option (string * string) :=
  match s with
  | EmptyString => None
  | String c r =>
      if Ascii.eqb c dquote then Some (EmptyString, r)
      else if Ascii.eqb c backslash then
        match r with
        | String e r1 =>
            if Ascii.eqb e "u" then
              match r1 with
              | String h1 (String h2 (String h3 (String h4 r2))) =>
                  match hex_val h1, hex_val h2, hex_val h3, hex_val h4 with
                  | Some a, Some b, Some c', Some d =>
                      match utf8_encode (((a * 16 + b) * 16 + c') * 16 + d)%N, parse_string_body r2 with
                      | Some u, Some (t, rest) => Some (u +:+ t, rest)
                      | _, _ => None
                      end
                  | _, _, _, _ => None
                  end
              | _ => None
              end
            else
              match unescape e, parse_string_body r1 with
              | Some ch, Some (t, rest) => Some (String ch t, rest)
              | _, _ => None
              end
        | EmptyString => None
        end
      else if (N_of_ascii c <? 32)%N then None
      else
        match parse_string_body r with
        | Some (t, rest) => Some (String c t, rest)
        | None => None
        end
  end.

Definition is_digit (c : ascii) : bool :=
  let n := N_of_ascii c in (48 <=? n)%N && (n <=? 57)%N.

(** The longest prefix of digits, and the rest. *)
Fixpoint span_digits (s : string) : string * string :=
  match s with
  | EmptyString => (EmptyString, EmptyString)
  | String c r =>
      if is_digit c then let '(d, rest) := span_digits r in (String c d, rest)
      else (EmptyString, s)
  end.

(** An unsigned integer literal: digits without a needless leading zero,
    not followed by a fraction or an exponent (a number that is not an
    integer literal is outside this model and parsing it fails). *)
Definition parse_nat (s : string) : option (Z * string) :=
  let '(ds, rest) := span_digits s in
  match NilZero.uint_of_string ds with
  | Some d =>
      if Decimal.uint_eq_dec (Decimal.unorm d) d then
        match rest with
        | String c _ =>
            if Ascii.eqb c "." || Ascii.eqb c "e" || Ascii.eqb c "E" then None
            else Some (Z.of_uint d, rest)
        | EmptyString => Some (Z.of_uint d, rest)
        end
      else None
  | None => None
  end.

Definition parse_number (s : string) : option (Z * string) :=
  match s with
  | String c r =>
      if Ascii.eqb c "-" then
        match parse_nat r with
        | Some (z, rest) => Some (Z.opp z, rest)
        | None => None
        end
      else parse_nat s
  | EmptyString => None
  end.

(** [s] with the keyword [kw] taken off its front. *)
Fixpoint strip_prefix (kw s : string) : option string :=
  match kw, s with
  | EmptyString, _ => Some s
  | String a kw', String b s' => if Ascii.eqb a b then strip_prefix kw' s' else None
  | String _ _, EmptyString => None
  end.

(** Recursive descent.  [fuel] bounds the nesting of calls; [parse] gives
    as much as the text is long, which no text exhausts. *)
Fixpoint parse_value (fuel : nat) (s : string) : option (json * string) :=
  match fuel with
  | O => None
  | S fuel =>
      match skip_ws s with
      | EmptyString => None
      | String c r =>
          if Ascii.eqb c "{" then
            match skip_ws r with
            | EmptyString => None
            | String c' r' =>
                if Ascii.eqb c' "}" then Some (JObject [], r')
                else
                  match parse_members fuel r with
                  | Some (ms, rest) =>
                      Some (JObject (foldl (fun o kv => Value.set o (fst kv) (snd kv)) [] ms), rest)
                  | None => None
                  end
            end
          else if Ascii.eqb c "[" then
            match skip_ws r with
            | EmptyString => None
            | String c' r' =>
                if Ascii.eqb c' "]" then Some (JArray [], r')
                else
                  match parse_elements fuel r with
                  | Some (vs, rest) => Some (JArray vs, rest)
                  | None => None
                  end
            end
          else if Ascii.eqb c dquote then
            match parse_string_body r with
            | Some (t, rest) => Some (JString t, rest)
            | None => None
            end
          else if Ascii.eqb c "t" then
            option_map (fun rest => (JBool true, rest)) (strip_prefix "rue" r)
          else if Ascii.eqb c "f" then
            option_map (fun rest => (JBool false, rest)) (strip_prefix "alse" r)
          else if Ascii.eqb c "n" then
            option_map (fun rest => (JNull, rest)) (strip_prefix "ull" r)
          else
            match parse_number (String c r) with
            | Some (z, rest) => Some (JNum z, rest)
            | None => None
            end
      end
  end
with parse_elements (fuel : nat) (s : string) : option (list json * string) :=
  match fuel with
  | O => None
  | S fuel =>
      match parse_value fuel s with
      | Some (v, r) =>
          match skip_ws r with
          | EmptyString => None
          | String c r' =>
              if Ascii.eqb c "," then
                match parse_elements fuel r' with
                | Some (vs, rest) => Some (v :: vs, rest)
                | None => None
                end
              else if Ascii.eqb c "]" then Some ([v], r')
              else None
          end
      | None => None
      end
  end
with parse_members (fuel : nat) (s : string) : option (list (string * json) * string) :=
  match fuel with
  | O => None
  | S fuel =>
      match skip_ws s with
      | EmptyString => None
      | String q r =>
          if Ascii.eqb q dquote then
            match parse_string_body r with
            | Some (k, r1) =>
                match skip_ws r1 with
                | EmptyString => None
                | String colon r2 =>
                    if Ascii.eqb colon ":" then
                      match parse_value fuel r2 with
                      | Some (v, r3) =>
                          match skip_ws r3 with
                          | EmptyString => None
                          | String c r4 =>
                              if Ascii.eqb c "," then
                                match parse_members fuel r4 with
                                | Some (ms, rest) => Some ((k, v) :: ms, rest)
                                | None => None
                                end
                              else if Ascii.eqb c "}" then Some ([(k, v)], r4)
                              else None
                          end
                      | None => None
                      end
                    else None
                end
            | None => None
            end
          else None
      end
  end.

(** [JSON.parse]: [None] is the [SyntaxError]. *)
Definition parse (s : string) : option json :=
  match parse_value (S (String.length s)) s with
  | Some (j, rest) =>
      match skip_ws rest with
      | EmptyString => Some j
      | String _ _ => None
      end
  | None => None
  end.

End JSON.

(** ** The application *)

Module App.

(** *** Data *)

(** A row record: the own properties of a JavaScript object, in the order
    they were added, with string values (what the delimited-text parser
    builds from a header line).  A key that is an array index would be
    listed before the others by the engine; no statement below depends on
    the order of keys.  Row objects are mutable and live in the store at
    a location; the table holds locations. *)
Abbreviation obj := (list (string * string)) (only parsing).
Abbreviation loc := positive (only parsing).

(** A column definition [{ field, header }]. *)
Record Column := { field : string; header : string }.

Inductive exn :=
  | TypeError (msg : string)
  | SyntaxError
  | Error (msg : string).

(** A settled promise of the environment. *)
Inductive Promise (A : Type) :=
  | Resolve (a : A)
  | Reject (e : exn).
Arguments Resolve {A} a.
Arguments Reject {A} e.

(** The part of a [fetch] response the program reads. *)
Record Response := {
  ok : bool;
  body_json : Promise json;
  body_blob : Promise string
}.

(** A blob is either the text [Papa.unparse] makes of rows, column order
    and delimiter (kept as the call: the writer is a collaborator), or
    bytes that were fetched. *)
Inductive Blob :=
  | Unparse (rows : list obj) (columns : list string) (delimiter : string)
  | Fetched (bytes : string).

Inductive Part :=
  | FilePart (content : Blob) (filename : string)
  | FieldPart (value : string).

Record Request := {
  url : string;
  method : string;
  authorization : option string;
  form : list (string * Part)
}.

(** What the program does to the outside, in order. *)
Inductive Event :=
  | Toast (severity summary detail : string)
  | ConsoleLog (msg : string)
  | ConsoleError (msg : string)
  | PapaParse (source : string)
  | Fetch (r : Request)
  | KeycloakNew (endpoint realm clientId : option string)
  | KeycloakInit (onLoad : string)
  | KeycloakUpdateToken (minValidity : Z)
  | KeycloakLogin (redirectUri : string).

(** The state the identity client keeps. *)
Record Keycloak := { authenticated : bool; token : option string }.

(** The browser and the servers, as the program meets them. *)
Record Env := {
  search : list (string * string);
  href : string;
  kc_init : Promise bool;
  kc_token : option string;
  kc_updateToken : Promise bool;
  kc_login : Promise unit;
  fetch : Request → Promise Response
}.

(** The four reactive references of the table. *)
Record Memory := {
  metadataUrl : string;
  tableData : list loc;
  allColumns : list Column;
  selectedColumns : list string
}.

Record Auth := {
  isAuthenticated : bool;
  authenticationInProgress : bool;
  keycloak : option Keycloak
}.

Record World := {
  mem : Memory;
  auth : Auth;
  heap : gmap loc obj;
  localStorage : gmap string string;
  queued : bool;
  log : list Event
}.

(** *** The monad of handlers *)

(** [Beyond] marks a run that left the embedding: a location without an
    object, or stored text that is not a snapshot of this program. *)
Inductive Res (A : Type) :=
  | Ok (a : A)
  | Throw (e : exn)
  | Beyond.
Arguments Ok {A} a.
Arguments Throw {A} e.
Arguments Beyond {A}.

Definition M (A : Type) : Type := World → Res A * World.

#[global] Instance M_ret : MRet M := λ A a w, (Ok a, w).
#[global] Instance M_bind : MBind M := λ A B f m w,
  match m w with
  | (Ok a, w') => f a w'
  | (Throw e, w') => (Throw e, w')
  | (Beyond, w') => (Beyond, w')
  end.

Definition gets {A} (f : World → A) : M A := λ w, (Ok (f w), w).
Definition modify (f : World → World) : M unit := λ w, (Ok tt, f w).
Definition throw {A} (e : exn) : M A := λ w, (Throw e, w).
Definition beyond {A} : M A := λ w, (Beyond, w).

(** [try { m } catch (e) { h e }] *)
Definition try_catch {A} (m : M A) (h : exn → M A) : M A := λ w,
  match m w with
  | (Throw e, w') => h e w'
  | r => r
  end.

(** [try { m } finally { f }] *)
Definition finally {A} (m : M A) (f : M unit) : M A := λ w,
  match m w with
  | (r, w') =>
      match f w' with
      | (Ok _, w'') => (r, w'')
      | (Throw e, w'') => (Throw e, w'')
      | (Beyond, w'') => (Beyond, w'')
      end
  end.

Definition await {A} (p : Promise A) : M A :=
  match p with
  | Resolve a => mret a
  | Reject e => throw e
  end.

Definition with_mem (f : Memory → Memory) (w : World) : World :=
  {| mem := f (mem w); auth := auth w; heap := heap w;
     localStorage := localStorage w; queued := queued w; log := log w |}.
Definition with_auth (f : Auth → Auth) (w : World) : World :=
  {| mem := mem w; auth := f (auth w); heap := heap w;
     localStorage := localStorage w; queued := queued w; log := log w |}.
Definition with_heap (f : gmap loc obj → gmap loc obj) (w : World) : World :=
  {| mem := mem w; auth := auth w; heap := f (heap w);
     localStorage := localStorage w; queued := queued w; log := log w |}.
Definition with_localStorage (f : gmap string string → gmap string string) (w : World) : World :=
  {| mem := mem w; auth := auth w; heap := heap w;
     localStorage := f (localStorage w); queued := queued w; log := log w |}.
Definition with_queued (b : bool) (w : World) : World :=
  {| mem := mem w; auth := auth w; heap := heap w;
     localStorage := localStorage w; queued := b; log := log w |}.
Definition with_log (f : list Event → list Event) (w : World) : World :=
  {| mem := mem w; auth := auth w; heap := heap w;
     localStorage := localStorage w; queued := queued w; log := f (log w) |}.

Definition emit (e : Event) : M unit := modify (with_log (λ l, l ++ [e])).

(** [toast.add({ severity, summary, detail, life: 3000 })] *)
Definition toast_add (severity summary detail : string) : M unit :=
  emit (Toast severity summary detail).
Definition console_log (msg : string) : M unit := emit (ConsoleLog msg).
Definition console_error (msg : string) : M unit := emit (ConsoleError msg).

(** Assignments to the reactive references.  The three watched ones
    queue the watcher. *)
Definition set_metadataUrl (v : string) : M unit :=
  modify (with_mem (λ m, {| metadataUrl := v; tableData := tableData m;
                            allColumns := allColumns m; selectedColumns := selectedColumns m |})).
Definition set_tableData (v : list loc) : M unit :=
  modify (λ w, with_queued true (with_mem (λ m,
    {| metadataUrl := metadataUrl m; tableData := v;
       allColumns := allColumns m; selectedColumns := selectedColumns m |}) w)).
Definition set_allColumns (v : list Column) : M unit :=
  modify (λ w, with_queued true (with_mem (λ m,
    {| metadataUrl := metadataUrl m; tableData := tableData m;
       allColumns := v; selectedColumns := selectedColumns m |}) w)).
Definition set_selectedColumns (v : list string) : M unit :=
  modify (λ w, with_queued true (with_mem (λ m,
    {| metadataUrl := metadataUrl m; tableData := tableData m;
       allColumns := allColumns m; selectedColumns := v |}) w)).
Definition set_isAuthenticated (b : bool) : M unit :=
  modify (with_auth (λ a, {| isAuthenticated := b;
    authenticationInProgress := authenticationInProgress a; keycloak := keycloak a |})).
Definition set_authenticationInProgress (b : bool) : M unit :=
  modify (with_auth (λ a, {| isAuthenticated := isAuthenticated a;
    authenticationInProgress := b; keycloak := keycloak a |})).
Definition set_keycloak (k : option Keycloak) : M unit :=
  modify (with_auth (λ a, {| isAuthenticated := isAuthenticated a;
    authenticationInProgress := authenticationInProgress a; keycloak := k |})).

(** *** Objects in the store *)

Definition deref (l : loc) : M obj := λ w,
  match heap w !! l with
  | Some o => (Ok o, w)
  | None => (Beyond, w)
  end.

(** A new object with the given properties. *)
Definition alloc (o : obj) : M loc := λ w,
  let l := fresh (dom (heap w)) in (Ok l, with_heap (insert l o) w).

(** [o[k]]: [None] is [undefined]. *)
Definition get_prop (l : loc) (k : string) : M (option string) :=
  o ← deref l; mret (Value.get o k).

(** [o[k] = v] on a plain object. *)
Definition set_prop (l : loc) (k v : string) : M unit :=
  o ← deref l; modify (with_heap (insert l (Value.set o k v))).


(** [o.hasOwnProperty(k)].  The method is looked up on the object first:
    a row with a column named [hasOwnProperty] holds a string there, and
    calling a string is a [TypeError]. *)
Definition call_hasOwnProperty (l : loc) (k : string) : M bool :=
  o ← deref l;
  match Value.get o "hasOwnProperty" with
  | Some _ => throw (TypeError "newRow.hasOwnProperty is not a function")
  | None => mret (bool_decide (is_Some (Value.get o k)))
  end.

(** Truthiness of a string or [undefined] / [null]. *)
Definition truthy (v : option string) : bool :=
  match v with
  | Some s => negb (String.eqb s "")
  | None => false
  end.

(** [new URLSearchParams(window.location.search).get(name)] *)
Definition param (env : Env) (name : string) : option string :=
  Value.get (search env) name.

(** *** Authentication *)

Definition hasAuthParams (env : Env) : bool :=
  truthy (param env "return-url") && truthy (param env "organism") &&
  truthy (param env "auth-endpoint") && truthy (param env "auth-realm") &&
  truthy (param env "auth-client-id").

(** [keycloak = new Keycloak({ url, realm, clientId })] *)
Definition keycloak_new (env : Env) : M unit :=
  emit (KeycloakNew (param env "auth-endpoint") (param env "auth-realm")
                    (param env "auth-client-id"));;
  set_keycloak (Some {| authenticated := false; token := None |}).

(** [await keycloak.init({ onLoad, ... })]: the client records the answer
    and, when authenticated, the token. *)
Definition keycloak_init (env : Env) (onLoad : string) : M bool :=
  kc ← gets (λ w, keycloak (auth w));
  match kc with
  | None => throw (TypeError "keycloak is null")
  | Some _ =>
      emit (KeycloakInit onLoad);;
      b ← await (kc_init env);
      set_keycloak (Some {| authenticated := b;
                            token := if b then kc_token env else None |});;
      mret b
  end.

Definition initializeAuthentication (env : Env) : M unit :=
  inProgress ← gets (λ w, authenticationInProgress (auth w));
  if negb (hasAuthParams env) || inProgress then mret tt
  else
    set_authenticationInProgress true;;
    finally
      (try_catch
         (kc ← gets (λ w, keycloak (auth w));
          (if kc is None then keycloak_new env else mret tt);;
          console_log "Initializing Keycloak authentication...";;
          authenticated ← keycloak_init env "check-sso";
          console_log "Authentication result:";;
          if authenticated : bool then
            set_isAuthenticated true;;
            toast_add "success" "Authentication Successful" "You are now authenticated"
          else
            set_isAuthenticated false;;
            toast_add "info" "Authentication Available"
                      "Click Upload to authenticate when ready")
         (λ _,
            console_error "Authentication initialization error:";;
            set_isAuthenticated false;;
            toast_add "warn" "Authentication Available"
                      "Authentication setup complete. Click Upload to sign in."))
      (set_authenticationInProgress false).

Definition validateAndRefreshToken (env : Env) : M bool :=
  kc ← gets (λ w, keycloak (auth w));
  match kc with
  | None => mret false
  | Some k =>
      if negb (authenticated k) then mret false
      else
        try_catch
          (emit (KeycloakUpdateToken 30);;
           tokenValid ← await (kc_updateToken env);
           if tokenValid : bool then set_isAuthenticated true;; mret true
           else set_isAuthenticated true;; mret true)
          (λ _,
             console_error "Token refresh failed:";;
             set_isAuthenticated false;;
             mret false)
  end.

Definition ensureAuthenticated (env : Env) : M bool :=
  if negb (hasAuthParams env) then
    toast_add "error" "Error" "Missing authentication parameters";;
    mret false
  else
    isAuth ← gets (λ w, isAuthenticated (auth w));
    kc ← gets (λ w, keycloak (auth w));
    if isAuth && from_option authenticated false kc then validateAndRefreshToken env
    else
      try_catch
        ((if kc is None then initializeAuthentication env else mret tt);;
         kc' ← gets (λ w, keycloak (auth w));
         match kc' with
         | None => throw (TypeError "keycloak is null")
         | Some k =>
             if negb (authenticated k) then
               emit (KeycloakLogin (href env));;
               await (kc_login env);;
               mret false
             else
               set_isAuthenticated true;;
               mret true
         end)
        (λ _,
           console_error "Authentication failed:";;
           toast_add "error" "Authentication Failed" "Could not authenticate user";;
           mret false).

(** *** Loading the table *)

(** [loadMetadata]: hands the URL to the parser, which answers later
    through one of the two callbacks below. *)
Definition loadMetadata : M unit :=
  u ← gets (λ w, metadataUrl (mem w));
  if String.eqb u "" then mret tt else emit (PapaParse u).

(** [Object.keys] of a row. *)
Definition Object_keys (o : obj) : list string := o.*1.

(** The [complete] callback, on [results.data]: the rows the parser
    built are new objects. *)
Definition loadMetadata_complete (data : list obj) : M unit :=
  rows ← mapM alloc data;
  set_tableData rows;;
  match data with
  | first :: _ =>
      let fields := Object_keys first in
      set_allColumns (map (λ f, {| field := f; header := f |}) fields);;
      set_selectedColumns fields
  | [] => mret tt
  end;;
  toast_add "success" "Success" "Metadata loaded successfully".



Definition onColReorder (columns : list Column) : M unit := set_allColumns columns.

Definition resetTable : M unit := loadMetadata.

(** *** Local storage *)

Definition KEY : string := "metadata-table-editor-state".

Definition clearLocalStorage : M unit :=
  modify (with_localStorage (delete KEY));;
  toast_add "warn" "Local Storage Cleared" "Please reload the page to see the changes".

Definition json_of_row (o : obj) : json := JObject (map (λ kv, (fst kv, JString (snd kv))) o).
Definition json_of_column (c : Column) : json :=
  JObject [("field", JString (field c)); ("header", JString (header c))].

(** The object [{ tableData, allColumns, selectedColumns, metadataUrl }]
    of the watcher, with the rows read out of the store. *)
Definition json_of_state (rows : list obj) (columns : list Column)
    (selection : list string) (source : string) : json :=
  JObject [("tableData", JArray (map json_of_row rows));
           ("allColumns", JArray (map json_of_column columns));
           ("selectedColumns", JArray (map JString selection));
           ("metadataUrl", JString source)].

(** The callback of [watch([tableData, allColumns, selectedColumns], ...,
    { deep: true })]. *)
Definition watch_callback : M unit :=
  m ← gets mem;
  rows ← mapM deref (tableData m);
  let state := json_of_state rows (allColumns m) (selectedColumns m) (metadataUrl m) in
  modify (with_localStorage (insert KEY (JSON.stringify state))).

(** The scheduler runs the watcher once after a handler that queued it. *)
Definition flush : M unit :=
  q ← gets queued;
  if q : bool then modify (with_queued false);; watch_callback else mret tt.

(** A handler, then the scheduler (also after a handler that threw). *)
Definition handler {A} (m : M A) : M A := finally m flush.

(** Reading a parsed snapshot back at the types of the references. *)
Definition string_of_json (j : json) : option string :=
  match j with JString s => Some s | _ => None end.

Definition list_of_json {A} (f : json → option A) (j : json) : option (list A) :=
  match j with JArray l => mapM f l | _ => None end.

Definition row_of_json (j : json) : option obj :=
  match j with
  | JObject l => mapM (λ kv, s ← string_of_json (snd kv); Some (fst kv, s)) l
  | _ => None
  end.

Definition column_of_json (j : json) : option Column :=
  match j with
  | JObject l =>
      if decide (length l = 2) then
        f ← Value.get l "field" ≫= string_of_json;
        h ← Value.get l "header" ≫= string_of_json;
        Some {| field := f; header := h |}
      else None
  | _ => None
  end.

(** The four assignments [tableData.value = state.tableData; ...] of the
    mount hook, for a parsed [state].  Reading a property of [null]
    throws; a [state] whose properties are not those of a snapshot leaves
    the embedding. *)
Definition restore_state (state : json) : M unit :=
  match state with
  | JNull => throw (TypeError "state is null")
  | JObject props =>
      match Value.get props "tableData" ≫= list_of_json row_of_json,
            Value.get props "allColumns" ≫= list_of_json column_of_json,
            Value.get props "selectedColumns" ≫= list_of_json string_of_json,
            Value.get props "metadataUrl" ≫= string_of_json with
      | Some rows, Some cols, Some sel, Some u =>
          ls ← mapM alloc rows;
          set_tableData ls;;
          set_allColumns cols;;
          set_selectedColumns sel;;
          set_metadataUrl u
      | _, _, _, _ => beyond
      end
  | _ => beyond
  end.

Definition onMounted (env : Env) : M unit :=
  savedState ← gets (λ w, localStorage w !! KEY);
  (if truthy savedState then
     match JSON.parse (default "" savedState) with
     | Some state => restore_state state
     | None => throw SyntaxError
     end
   else
     let inputMetadataUrl := param env "input-metadata" in
     if truthy inputMetadataUrl then
       set_metadataUrl (default "" inputMetadataUrl);;
       loadMetadata
     else mret tt);;
  if hasAuthParams env then initializeAuthentication env else mret tt.

(** *** Upload *)

(** [`${v}`] for a string or [undefined]. *)
Definition template (v : option string) : string := default "undefined" v.

(** The callback of [tableData.value.map(row => ...)]. *)
Definition upload_row (row : loc) : M loc :=
  o ← deref row;
  newRow ← alloc o;
  accession ← get_prop newRow "accessionVersion";
  sample ← get_prop newRow "SampleID";
  (if truthy accession && truthy sample then
     set_prop newRow "id" (template accession +:+ "|" +:+ template sample)
   else
     has ← call_hasOwnProperty newRow "id";
     if negb has then set_prop newRow "id" "" else mret tt);;
  mret newRow.

Definition dataForUpload : M (list loc) :=
  rows ← gets (λ w, tableData (mem w));
  mapM upload_row rows.

Definition headersForUpload (originalHeaders : list string) : list string :=
  "id" :: List.filter
            (λ h, negb (String.eqb (Js.toLowerCase h) "id") && negb (String.eqb h "submissionId"))
            originalHeaders.

(** [groups[0]] *)
Definition index0 (groups : json) : Res jsval :=
  match groups with
  | JNull => Throw (TypeError "groups is null")
  | JArray l => Ok (head l)
  | JObject l => Ok (Value.get l "0")
  | JString (String c _) => Ok (Some (JString (String c "")))
  | _ => Ok None
  end.

(** [v.groupId] *)
Definition groupId_of (v : jsval) : Res jsval :=
  match v with
  | None => Throw (TypeError "groups[0] is undefined")
  | Some JNull => Throw (TypeError "groups[0] is null")
  | Some (JObject l) => Ok (Value.get l "groupId")
  | Some _ => Ok None
  end.

Definition lift {A} (r : Res A) : M A := λ w, (r, w).

Definition revisionUrl (returnUrl organism : string) (groupId : jsval) : string :=
  Js.replace_trailing_slash returnUrl +:+ "/" +:+ organism +:+ "/revise?groupId=" +:+
  Value.to_string_val groupId +:+ "&dataUseTermsType=OPEN".

Definition bearer (tok : option string) : string := "Bearer " +:+ template tok.

Definition uploadMetadata (env : Env) : M unit :=
  let returnUrl := param env "return-url" in
  let organism := param env "organism" in
  let fastaUrl := param env "input-fasta" in
  if negb (truthy returnUrl) || negb (truthy organism) || negb (truthy fastaUrl) then
    toast_add "error" "Error" "Missing URL parameters for upload"
  else
    authenticated ← ensureAuthenticated env;
    if negb authenticated then mret tt
    else
      try_catch
        (kc ← gets (λ w, keycloak (auth w));
         tok ← match kc with
               | Some k => mret (token k)
               | None => throw (TypeError "keycloak is null")
               end;
         let groupsRequest :=
           {| url := Js.replace_trailing_slash (template returnUrl) +:+ "/user/groups";
              method := "GET"; authorization := Some (bearer tok); form := [] |} in
         let fastaRequest :=
           {| url := template fastaUrl; method := "GET"; authorization := None; form := [] |} in
         emit (Fetch groupsRequest);;
         emit (Fetch fastaRequest);;
         groupsResponse ← await (fetch env groupsRequest);
         fastaResponse ← await (fetch env fastaRequest);
         (if negb (ok groupsResponse) then throw (Error "Failed to fetch user groups") else mret tt);;
         (if negb (ok fastaResponse) then throw (Error "Failed to fetch FASTA file") else mret tt);;
         groups ← await (body_json groupsResponse);
         fastaBlob ← await (body_blob fastaResponse);
         first ← lift (index0 groups);
         groupId ← lift (groupId_of first);
         let revisionUrl := revisionUrl (template returnUrl) (template organism) groupId in
         newRows ← dataForUpload;
         originalHeaders ← gets (λ w, map field (allColumns (mem w)));
         let headers := headersForUpload originalHeaders in
         contents ← mapM deref newRows;
         let formData :=
           [("metadataFile", FilePart (Unparse contents headers (String (ascii_of_N 9) "")) "metadata.tsv");
            ("sequenceFile", FilePart (Fetched fastaBlob) "sequence.fasta");
            ("description", FieldPart "metadataFile")] in
         let uploadRequest :=
           {| url := revisionUrl; method := "POST";
              authorization := Some (bearer tok); form := formData |} in
         emit (Fetch uploadRequest);;
         uploadResponse ← await (fetch env uploadRequest);
         if ok uploadResponse then
           toast_add "success" "Success" "Metadata uploaded successfully"
         else throw (Error "Upload failed"))
        (λ _,
           console_error "Upload error:";;
           toast_add "error" "Error" "An error occurred during upload").

End App.

Import Js JSON App.

(** ** Vocabulary of the statements *)

(** *** JSON *)

(** Induction on JSON values, through the lists they nest in. *)
Definition json_ind (P : json → Prop)
    (Hnull : P JNull) (Hbool : ∀ b, P (JBool b)) (Hnum : ∀ z, P (JNum z))
    (Hstr : ∀ s, P (JString s))
    (Harr : ∀ l, Forall P l → P (JArray l))
    (Hobj : ∀ l, Forall (λ kv, P (snd kv)) l → P (JObject l)) : ∀ j, P j :=
  fix go (j : json) : P j :=
    match j with
    | JNull => Hnull
    | JBool b => Hbool b
    | JNum z => Hnum z
    | JString s => Hstr s
    | JArray l =>
        Harr l ((fix all (l : list json) : Forall P l :=
                   match l with
                   | [] => @List.Forall_nil _ P
                   | x :: r => @List.Forall_cons _ P x r (go x) (all r)
                   end) l)
    | JObject l =>
        Hobj l ((fix all (l : list (string * json)) : Forall (λ kv, P (snd kv)) l :=
                   match l with
                   | [] => @List.Forall_nil _ (λ kv, P (snd kv))
                   | kv :: r => @List.Forall_cons _ (λ kv, P (snd kv)) kv r (go (snd kv)) (all r)
                   end) l)
    end.

(** Every object of the value has each key once, as a JavaScript object
    does. *)
Fixpoint json_wf (j : json) : Prop :=
  match j with
  | JArray l => foldr (λ x P, json_wf x ∧ P) True l
  | JObject l => NoDup l.*1 ∧ foldr (λ kv P, json_wf (snd kv) ∧ P) True l
  | _ => True
  end.

(** Fuel that parsing the text of a value needs. *)
Fixpoint json_size (j : json) : nat :=
  match j with
  | JArray l => S (sum_list (map (λ x, S (json_size x)) l))
  | JObject l => S (sum_list (map (λ kv, S (json_size (snd kv))) l))
  | _ => 1
  end.

(** The text of one member of an object. *)
Definition member_text (kv : string * json) : string :=
  quote (fst kv) +:+ ":" +:+ stringify (snd kv).

(** What may follow the text of a value inside a text: nothing, a comma
    or a closing bracket. *)
Definition closes (rest : string) : bool :=
  match rest with
  | EmptyString => true
  | String c _ => Ascii.eqb c "," || Ascii.eqb c "]" || Ascii.eqb c "}"
  end.

(** Parsing the text of [j], with enough fuel and whatever [closes] after
    it, gives [j] back and stops there. *)
Definition roundtrips (j : json) : Prop :=
  json_wf j → ∀ fuel rest, json_size j ≤ fuel → closes rest = true →
  parse_value fuel (stringify j +:+ rest) = Some (j, rest).

(** *** Worlds *)

(** The event is a request to load a table. *)
Definition is_load (e : Event) : bool :=
  match e with PapaParse _ => true | _ => false end.

(** [w'] has the references of [w], every object of [w] with the
    properties it had, and the events of [w] followed by events that load
    no table. *)
Definition keeps (w w' : World) : Prop :=
  mem w' = mem w ∧ heap w ⊆ heap w' ∧
  ∃ evs, log w' = log w ++ evs ∧ Forall (λ e, is_load e = false) evs.

(** [keeps], and local storage and the scheduler untouched. *)
Definition extends (w w' : World) : Prop :=
  keeps w w' ∧ localStorage w' = localStorage w ∧ queued w' = queued w.

(** Every run of [m] relates the world before to the world after,
    whatever its outcome. *)
Definition frames {A} (R : relation World) (m : M A) : Prop := ∀ w, R w (m w).2.

(** *** Snapshots *)

(** The application snapshot: source URL, row records, column
    definitions, visible columns. *)
Record Snapshot := {
  snap_source : string;
  snap_rows : list obj;
  snap_columns : list Column;
  snap_selection : list string
}.

(** The snapshot a world holds in memory, rows read through the store. *)
Definition snapshot (w : World) : option Snapshot :=
  rs ← mapM (λ l, heap w !! l) (tableData (mem w));
  Some {| snap_source := metadataUrl (mem w); snap_rows := rs;
          snap_columns := allColumns (mem w);
          snap_selection := selectedColumns (mem w) |}.

(** The text the watcher stores for a snapshot. *)
Definition stored (S : Snapshot) : string :=
  JSON.stringify (json_of_state (snap_rows S) (snap_columns S) (snap_selection S)
                                (snap_source S)).

(** Each row record maps a key once. *)
Definition distinct_keys (S : Snapshot) : Prop :=
  Forall (λ o : obj, NoDup o.*1) (snap_rows S).

(** The world right after the four assignments of the mount hook, with
    the rows of [S] at the new locations [ls] of the store [h']. *)
Definition restored (S : Snapshot) (ls : list loc) (h' : gmap loc obj) (w : World) : World :=
  {| mem := {| metadataUrl := snap_source S; tableData := ls;
               allColumns := snap_columns S; selectedColumns := snap_selection S |};
     auth := auth w; heap := h'; localStorage := localStorage w;
     queued := true; log := log w |}.

(** *** Upload *)

(** The composite id of a row with both source fields. *)
Definition id_of (o : obj) : string :=
  template (Value.get o "accessionVersion") +:+ "|" +:+ template (Value.get o "SampleID").

(** The rule for the [id] of an upload row [o'] made from the row [o]:
    the other properties are those of [o]; [id] is
    [accessionVersion|SampleID] when both are present and not empty, and
    otherwise the [id] of [o], or the empty string when [o] has none. *)
Definition id_rule (o o' : obj) : Prop :=
  (∀ k, k ≠ "id" → Value.get o' k = Value.get o k) ∧
  Value.get o' "id" =
    match Value.get o "accessionVersion", Value.get o "SampleID" with
    | Some a, Some s =>
        if negb (String.eqb a "") && negb (String.eqb s "") then Some (a +:+ "|" +:+ s)
        else Some (default "" (Value.get o "id"))
    | _, _ => Some (default "" (Value.get o "id"))
    end.

(** The string ends with a slash. *)
Fixpoint ends_with_slash (s : string) : bool :=
  match s with
  | EmptyString => false
  | String c EmptyString => Ascii.eqb c "/"
  | String _ r => ends_with_slash r
  end.

(** The submission URL over a base without trailing slash. *)
Definition revise (base organism groupId : string) : string :=
  base +:+ "/" +:+ organism +:+ "/revise?groupId=" +:+ groupId +:+ "&dataUseTermsType=OPEN".

(** The notification of a missing upload parameter. *)
Definition missing_parameters : Event :=
  Toast "error" "Error" "Missing URL parameters for upload".

(** *** Concrete inputs *)

Definition example_response : Response :=
  {| ok := true; body_json := Resolve (JArray [JObject [("groupId", JNum 7)]]);
     body_blob := Resolve ">s1" |}.

Definition example_env : Env :=
  {| search := [("return-url", "https://api.example/"); ("organism", "flu");
                ("input-fasta", "https://files.example/s.fasta");
                ("input-metadata", "https://files.example/m.tsv");
                ("auth-endpoint", "https://auth.example"); ("auth-realm", "r");
                ("auth-client-id", "c")];
     href := "https://editor.example/";
     kc_init := Resolve true; kc_token := Some "t";
     kc_updateToken := Resolve true; kc_login := Resolve tt;
     fetch := λ _, Resolve example_response |}.

Definition example_env_no_fasta : Env :=
  {| search := [("return-url", "https://api.example/"); ("organism", "flu")];
     href := "https://editor.example/";
     kc_init := Resolve true; kc_token := Some "t";
     kc_updateToken := Resolve true; kc_login := Resolve tt;
     fetch := λ _, Resolve example_response |}.

(** A table of one row, with the columns of that row. *)
Definition example_world (row : obj) : World :=
  {| mem := {| metadataUrl := "https://files.example/m.tsv"; tableData := [1%positive];
               allColumns := map (λ f, {| field := f; header := f |}) row.*1;
               selectedColumns := row.*1 |};
     auth := {| isAuthenticated := false; authenticationInProgress := false;
                keycloak := None |};
     heap := {[ 1%positive := row ]};
     localStorage := ∅; queued := false; log := [] |}.

Definition example_row : obj :=
  [("accessionVersion", "X.1"); ("SampleID", "S1"); ("other", "v")].

(** A row of a table that has a column named [hasOwnProperty]. *)
Definition shadowing_row : obj :=
  [("hasOwnProperty", "x"); ("other", "v")].

Definition example_snapshot : Snapshot :=
  {| snap_source := "https://files.example/m.tsv"; snap_rows := [example_row];
     snap_columns := map (λ f, {| field := f; header := f |}) example_row.*1;
     snap_selection := example_row.*1 |}.

(** The world of a page that was just loaded, with [text] (if any) under
    the key in local storage. *)
Definition reloaded_world (text : option string) : World :=
  {| mem := {| metadataUrl := ""; tableData := []; allColumns := []; selectedColumns := [] |};
     auth := {| isAuthenticated := false; authenticationInProgress := false;
                keycloak := None |};
     heap := ∅;
     localStorage := from_option (λ t, {[ KEY := t ]}) ∅ text;
     queued := false; log := [] |}.

(** ** The rest of the script *)

(** The computed [visibleColumns]:
    [allColumns.value.filter(col => selectedColumns.value.includes(col.field))]. *)
Definition visibleColumns (m : Memory) : list Column :=
  List.filter (λ col, existsb (λ s, String.eqb s (field col)) (selectedColumns m))
              (allColumns m).

(** The script block of the earlier version of the component
    ([src/unnamed/part_000]).  Its other functions are those of [App]; the
    upload makes the identity client itself and the mount hook does not
    look at authentication. *)
Module Legacy.

Definition uploadMetadata (env : Env) : M unit :=
  let returnUrl := param env "return-url" in
  let organism := param env "organism" in
  let authEndpoint := param env "auth-endpoint" in
  let authRealm := param env "auth-realm" in
  let authClientId := param env "auth-client-id" in
  let fastaUrl := param env "input-fasta" in
  if negb (truthy returnUrl) || negb (truthy organism) || negb (truthy authEndpoint) ||
     negb (truthy authRealm) || negb (truthy authClientId) || negb (truthy fastaUrl) then
    toast_add "error" "Error" "Missing URL parameters for upload"
  else
    kc0 ← gets (λ w, keycloak (auth w));
    (if kc0 is None then keycloak_new env else mret tt);;
    try_catch
      (authenticated ← keycloak_init env "login-required";
       if negb authenticated then
         toast_add "error" "Authentication Failed" "User not authenticated"
       else
         kc ← gets (λ w, keycloak (auth w));
         tok ← match kc with
               | Some k => mret (token k)
               | None => throw (TypeError "keycloak is null")
               end;
         let groupsRequest :=
           {| url := Js.replace_trailing_slash (template returnUrl) +:+ "/user/groups";
              method := "GET"; authorization := Some (bearer tok); form := [] |} in
         let fastaRequest :=
           {| url := template fastaUrl; method := "GET"; authorization := None; form := [] |} in
         emit (Fetch groupsRequest);;
         emit (Fetch fastaRequest);;
         groupsResponse ← await (fetch env groupsRequest);
         fastaResponse ← await (fetch env fastaRequest);
         (if negb (ok groupsResponse) then throw (Error "Failed to fetch user groups") else mret tt);;
         (if negb (ok fastaResponse) then throw (Error "Failed to fetch FASTA file") else mret tt);;
         groups ← await (body_json groupsResponse);
         fastaBlob ← await (body_blob fastaResponse);
         first ← lift (index0 groups);
         groupId ← lift (groupId_of first);
         let revisionUrl := revisionUrl (template returnUrl) (template organism) groupId in
         newRows ← dataForUpload;
         originalHeaders ← gets (λ w, map field (allColumns (mem w)));
         let headers := headersForUpload originalHeaders in
         contents ← mapM deref newRows;
         let formData :=
           [("metadataFile", FilePart (Unparse contents headers (String (ascii_of_N 9) "")) "metadata.tsv");
            ("sequenceFile", FilePart (Fetched fastaBlob) "sequence.fasta");
            ("description", FieldPart "metadataFile")] in
         let uploadRequest :=
           {| url := revisionUrl; method := "POST";
              authorization := Some (bearer tok); form := formData |} in
         emit (Fetch uploadRequest);;
         uploadResponse ← await (fetch env uploadRequest);
         if ok uploadResponse then
           toast_add "success" "Success" "Metadata uploaded successfully"
         else throw (Error "Upload failed"))
      (λ _,
         console_error "Upload error:";;
         toast_add "error" "Error" "An error occurred during upload").

Definition onMounted (env : Env) : M unit :=
  savedState ← gets (λ w, localStorage w !! KEY);
  if truthy savedState then
    match JSON.parse (default "" savedState) with
    | Some state => restore_state state
    | None => throw SyntaxError
    end
  else
    let inputMetadataUrl := param env "input-metadata" in
    if truthy inputMetadataUrl then
      set_metadataUrl (default "" inputMetadataUrl);;
      loadMetadata
    else mret tt.

End Legacy.

(** ** Vocabulary of the further statements *)

(** The events [w'] has after those of [w] all satisfy [P]. *)
Definition only (P : Event → Prop) (w w' : World) : Prop :=
  ∃ evs, log w' = log w ++ evs ∧ Forall P evs.

(** No run of [m] ends in an exception. *)
Definition safe {A} (m : M A) : Prop := ∀ w e, (m w).1 ≠ Throw e.

(** [w'] has the busy flag of [w]. *)
Definition same_flag (w w' : World) : Prop :=
  authenticationInProgress (auth w') = authenticationInProgress (auth w).

Definition is_fetch (e : Event) : bool :=
  match e with Fetch _ => true | _ => false end.

Definition is_keycloak_new (e : Event) : bool :=
  match e with KeycloakNew _ _ _ => true | _ => false end.

Definition is_post (e : Event) : bool :=
  match e with Fetch r => String.eqb (method r) "POST" | _ => false end.

(** The three requests of an upload. *)
Definition groups_request (env : Env) (tok : option string) : Request :=
  {| url := replace_trailing_slash (template (param env "return-url")) +:+ "/user/groups";
     method := "GET"; authorization := Some (bearer tok); form := [] |}.

Definition fasta_request (env : Env) : Request :=
  {| url := template (param env "input-fasta"); method := "GET";
     authorization := None; form := [] |}.

Definition revise_request (env : Env) (tok : option string) (groupId : jsval)
    (rows : list obj) (fields : list string) (sequence : string) : Request :=
  {| url := revisionUrl (template (param env "return-url"))
                        (template (param env "organism")) groupId;
     method := "POST"; authorization := Some (bearer tok);
     form := [("metadataFile",
               FilePart (Unparse rows (headersForUpload fields) (String (ascii_of_N 9) ""))
                        "metadata.tsv");
              ("sequenceFile", FilePart (Fetched sequence) "sequence.fasta");
              ("description", FieldPart "metadataFile")] |}.

(** The event, if it is a request, is one of the three. *)
Definition upload_event (env : Env) (e : Event) : Prop :=
  ∀ r, e = Fetch r →
    (∃ tok, r = groups_request env tok) ∨ r = fasta_request env ∨
    (∃ tok groupId rows fields sequence,
        r = revise_request env tok groupId rows fields sequence).

(** The group lookup or the fetch of the sequence file fails, for a
    client that holds [tok]. *)
Definition lookup_fails (env : Env) (tok : option string) : Prop :=
  match fetch env (groups_request env tok), fetch env (fasta_request env) with
  | Resolve g, Resolve f => ok g = false ∨ ok f = false
  | _, _ => True
  end.

(** The event is not the making of an identity client. *)
Definition no_new (e : Event) : Prop := is_keycloak_new e = false.

(** What an upload adds to the log when a lookup fails: the two requests
    and the report of the [catch] block. *)
Definition upload_failure (env : Env) (tok : option string) : list Event :=
  [Fetch (groups_request env tok); Fetch (fasta_request env);
   ConsoleError "Upload error:";
   Toast "error" "Error" "An error occurred during upload"].


(** The filter of the upload header. *)
Definition keeps_field (h : string) : bool :=
  negb (String.eqb (toLowerCase h) "id") && negb (String.eqb h "submissionId").

(** The column definitions made of field names. *)
Definition columns_of (fields : list string) : list Column :=
  map (λ f, {| field := f; header := f |}) fields.

(** The world after the [complete] callback on [data], with the new rows
    at [ls] in the store [h']. *)
Definition completed (data : list obj) (ls : list loc) (h' : gmap loc obj) (w : World) : World :=
  with_log (λ l, l ++ [Toast "success" "Success" "Metadata loaded successfully"])
    (with_queued true
      (with_mem (λ m, {| metadataUrl := metadataUrl m; tableData := ls;
           allColumns := match data with
                         | first :: _ => columns_of (Object_keys first)
                         | [] => allColumns m
                         end;
           selectedColumns := match data with
                              | first :: _ => Object_keys first
                              | [] => selectedColumns m
                              end |})
        (with_heap (λ _, h') w))).

(** *** Further concrete inputs *)

(** The example table in a page whose client is signed in. *)
Definition signed_in_world : World :=
  with_auth (λ _, {| isAuthenticated := true; authenticationInProgress := false;
                     keycloak := Some {| authenticated := true; token := Some "t" |} |})
            (example_world example_row).

(** The example table in a page whose client exists and is not signed in. *)
Definition signed_out_world : World :=
  with_auth (λ _, {| isAuthenticated := false; authenticationInProgress := false;
                     keycloak := Some {| authenticated := false; token := None |} |})
            (example_world example_row).

(** An environment whose network fails. *)
Definition failing_env : Env :=
  {| search := search example_env; href := href example_env;
     kc_init := Resolve true; kc_token := Some "t";
     kc_updateToken := Resolve true; kc_login := Resolve tt;
     fetch := λ _, Reject (Error "network") |}.

(** A row of a table whose id column is spelled in capitals. *)
Definition capital_id_row : obj := [("ID", "7"); ("other", "v")].

(** ** Strings and JSON text *)

(** *** Appending *)

Lemma append_cons x (a b : string) : String x a +:+ b = String x (a +:+ b).
Proof. reflexivity. Qed.

Lemma append_nil_l (a : string) : "" +:+ a = a.
Proof. reflexivity. Qed.

Lemma append_assoc (a b c : string) : (a +:+ b) +:+ c = a +:+ (b +:+ c).
Proof. induction a as [|x a IH]; [done|]. rewrite !append_cons. by f_equal. Qed.

Lemma append_length (a b : string) :
  String.length (a +:+ b) = String.length a + String.length b.
Proof. induction a as [|x a IH]; [done|]. rewrite append_cons. simpl. by rewrite IH. Qed.

(** *** String literals *)

(** Reading back one escaped character, for each of the 256. *)
Lemma parse_escape_char c X r rest :
  parse_string_body X = Some (r, rest) →
  parse_string_body (escape_char c +:+ X) = Some (String c r, rest).
Proof.
  intros HX.
  destruct c as [[] [] [] [] [] [] [] []]; 
  (cbv [escape_char]; simpl; rewrite ?append_cons, ?append_nil_l; simpl; rewrite ?append_nil_l, HX; reflexivity).
Qed.

(** *** Numbers *)

Lemma span_digits_uint d rest :
  match rest with String c _ => is_digit c = false | EmptyString => True end →
  span_digits (NilEmpty.string_of_uint d +:+ rest) = (NilEmpty.string_of_uint d, rest).
Proof.
  intros Hrest. induction d; simpl; rewrite ?append_cons; simpl; rewrite ?IHd; try done.
  rewrite append_nil_l. destruct rest as [|c r]; [done|]. simpl. by rewrite Hrest.
Qed.

Lemma closes_not_digit rest :
  closes rest = true →
  match rest with String c _ => is_digit c = false | EmptyString => True end.
Proof.
  destruct rest as [|c r]; [done|]. simpl.
  intros H. destruct (Ascii.eqb_spec c ","); [by subst|].
  destruct (Ascii.eqb_spec c "]"); [by subst|].
  destruct (Ascii.eqb_spec c "}"); [by subst|]. done.
Qed.

Lemma closes_not_frac rest c r :
  closes rest = true → rest = String c r →
  Ascii.eqb c "." || Ascii.eqb c "e" || Ascii.eqb c "E" = false.
Proof.
  intros H ->. simpl in H.
  destruct (Ascii.eqb_spec c ","); [by subst|].
  destruct (Ascii.eqb_spec c "]"); [by subst|].
  destruct (Ascii.eqb_spec c "}"); [by subst|]. done.
Qed.

Lemma unorm_to_uint p : unorm (Pos.to_uint p) = Pos.to_uint p.
Proof.
  rewrite <- (DecimalPos.Unsigned.to_of (Pos.to_uint p)).
  by rewrite DecimalPos.Unsigned.of_to.
Qed.

Lemma parse_nat_uint d rest :
  d ≠ Nil → unorm d = d → closes rest = true →
  parse_nat (NilEmpty.string_of_uint d +:+ rest) = Some (Z.of_uint d, rest).
Proof.
  intros Hd Hn Hrest. unfold parse_nat.
  rewrite span_digits_uint by by apply closes_not_digit.
  replace (NilZero.uint_of_string (NilEmpty.string_of_uint d)) with (Some d).
  2:{ symmetry. rewrite <- (NilZero.usu d) by done. unfold NilZero.string_of_uint.
      by destruct d. }
  destruct (uint_eq_dec (unorm d) d); [|done].
  destruct rest as [|c r]; [done|].
  by rewrite (closes_not_frac _ c r Hrest).
Qed.

Lemma uint_head d :
  d ≠ Nil → ∃ c s, NilEmpty.string_of_uint d = String c s ∧ is_digit c = true.
Proof. destruct d; [done|..]; intros _; eexists _, _; split; reflexivity. Qed.

Lemma to_int_cases z :
  (∃ d, d ≠ Nil ∧ unorm d = d ∧ Z.of_uint d = z ∧
        string_of_Z z = NilEmpty.string_of_uint d) ∨
  (∃ d, d ≠ Nil ∧ unorm d = d ∧ Z.opp (Z.of_uint d) = z ∧
        string_of_Z z = String "-" (NilEmpty.string_of_uint d)).
Proof.
  unfold string_of_Z. destruct z as [|p|p]; simpl.
  - left. by exists zero.
  - left. exists (Pos.to_uint p). pose proof (DecimalPos.Unsigned.to_uint_nonnil p).
    split_and!; [done|apply unorm_to_uint| |by destruct (Pos.to_uint p)].
    unfold Z.of_uint. by rewrite DecimalPos.Unsigned.of_to.
  - right. exists (Pos.to_uint p). pose proof (DecimalPos.Unsigned.to_uint_nonnil p).
    split_and!; [done|apply unorm_to_uint| |by destruct (Pos.to_uint p)].
    unfold Z.of_uint. by rewrite DecimalPos.Unsigned.of_to.
Qed.

Lemma parse_number_string_of_Z z rest :
  closes rest = true →
  parse_number (string_of_Z z +:+ rest) = Some (z, rest).
Proof.
  intros Hrest.
  destruct (to_int_cases z) as [(d & Hd & Hn & Hz & ->)|(d & Hd & Hn & Hz & ->)].
  - destruct (uint_head d Hd) as (c & s & Hs & Hc).
    pose proof (parse_nat_uint d rest Hd Hn Hrest) as Hp.
    rewrite Hs in Hp |- *. rewrite append_cons in Hp |- *.
    unfold parse_number. destruct (Ascii.eqb_spec c "-") as [->|_]; [done|].
    by rewrite Hp, Hz.
  - rewrite append_cons. unfold parse_number. rewrite Ascii.eqb_refl.
    by rewrite (parse_nat_uint d rest Hd Hn Hrest), Hz.
Qed.

(** *** Objects *)

Lemma set_fresh {A} (o : list (string * A)) k v :
  k ∉ o.*1 → Value.set o k v = o ++ [(k, v)].
Proof.
  induction o as [|[k' v'] o IH]; simpl; [done|].
  intros Hk. apply not_elem_of_cons in Hk as [Hne Hk].
  destruct (String.eqb_spec k' k); [congruence|]. by rewrite IH.
Qed.

Lemma foldl_set_nodup {A} (acc ms : list (string * A)) :
  NoDup (acc ++ ms).*1 →
  foldl (λ o kv, Value.set o (fst kv) (snd kv)) acc ms = acc ++ ms.
Proof.
  revert acc. induction ms as [|[k v] ms IH]; intros acc Hnd; simpl.
  - by rewrite app_nil_r.
  - rewrite set_fresh.
    + rewrite IH; rewrite <- app_assoc; [done|]. done.
    + rewrite fmap_app in Hnd. apply NoDup_app in Hnd as (_ & Hd & _).
      intros Hin. apply (Hd k Hin). simpl. left.
Qed.

(** *** First characters *)

Lemma head_ok_of_digit c :
  is_digit c = true ∨ c = "-"%char →
  is_ws c = false ∧ Ascii.eqb c "]" = false ∧ Ascii.eqb c "}" = false.
Proof.
  intros [H| ->]; [|done].
  destruct c as [[] [] [] [] [] [] [] []]; done.
Qed.

Lemma string_of_Z_head z :
  ∃ c s, string_of_Z z = String c s ∧ (is_digit c = true ∨ c = "-"%char).
Proof.
  destruct (to_int_cases z) as [(d & Hd & _ & _ & ->)|(d & Hd & _ & _ & ->)].
  - destruct (uint_head d Hd) as (c & s & -> & Hc). eauto.
  - eauto.
Qed.

Lemma stringify_head j :
  ∃ c s, stringify j = String c s ∧
         is_ws c = false ∧ Ascii.eqb c "]" = false ∧ Ascii.eqb c "}" = false.
Proof.
  destruct j as [|[]|z|s|l|l]; try (by eexists _, _).
  destruct (string_of_Z_head z) as (c & s & Hs & Hc).
  exists c, s. split; [done|]. by apply head_ok_of_digit.
Qed.

Lemma parse_value_number f c r :
  is_digit c = true ∨ c = "-"%char →
  parse_value (S f) (String c r) =
    match parse_number (String c r) with
    | Some (z, rest) => Some (JNum z, rest)
    | None => None
    end.
Proof.
  intros [H| ->]; [|done].
  destruct c as [[] [] [] [] [] [] [] []]; done.
Qed.

Lemma parse_value_dquote f Y :
  parse_value (S f) (String dquote Y) =
    match parse_string_body Y with
    | Some (t, rest) => Some (JString t, rest)
    | None => None
    end.
Proof. reflexivity. Qed.

Lemma parse_string_body_escape s rest :
  parse_string_body (escape s +:+ String dquote rest) = Some (s, rest).
Proof.
  induction s as [|c s IH]; [done|].
  simpl. rewrite append_assoc. by apply parse_escape_char.
Qed.

(** *** Arrays and objects *)

Lemma join_cons2 sep x y l : join sep (x :: y :: l) = x +:+ sep +:+ join sep (y :: l).
Proof. reflexivity. Qed.

Lemma parse_value_array f X :
  parse_value (S f) (String "[" X) =
    match skip_ws X with
    | EmptyString => None
    | String c' r' =>
        if Ascii.eqb c' "]" then Some (JArray [], r')
        else match parse_elements f X with
             | Some (vs, rest) => Some (JArray vs, rest)
             | None => None
             end
    end.
Proof. reflexivity. Qed.

Lemma parse_value_object f X :
  parse_value (S f) (String "{" X) =
    match skip_ws X with
    | EmptyString => None
    | String c' r' =>
        if Ascii.eqb c' "}" then Some (JObject [], r')
        else match parse_members f X with
             | Some (ms, rest) =>
                 Some (JObject (foldl (λ o kv, Value.set o (fst kv) (snd kv)) [] ms), rest)
             | None => None
             end
    end.
Proof. reflexivity. Qed.

Lemma parse_elements_S f s :
  parse_elements (S f) s =
    match parse_value f s with
    | Some (v, r) =>
        match skip_ws r with
        | EmptyString => None
        | String c r' =>
            if Ascii.eqb c "," then
              match parse_elements f r' with
              | Some (vs, rest) => Some (v :: vs, rest)
              | None => None
              end
            else if Ascii.eqb c "]" then Some ([v], r')
            else None
        end
    | None => None
    end.
Proof. reflexivity. Qed.

Lemma parse_members_dquote f Y :
  parse_members (S f) (String dquote Y) =
    match parse_string_body Y with
    | Some (k, r1) =>
        match skip_ws r1 with
        | EmptyString => None
        | String colon r2 =>
            if Ascii.eqb colon ":" then
              match parse_value f r2 with
              | Some (v, r3) =>
                  match skip_ws r3 with
                  | EmptyString => None
                  | String c r4 =>
                      if Ascii.eqb c "," then
                        match parse_members f r4 with
                        | Some (ms, rest) => Some ((k, v) :: ms, rest)
                        | None => None
                        end
                      else if Ascii.eqb c "}" then Some ([(k, v)], r4)
                      else None
                  end
              | None => None
              end
            else None
        end
    | None => None
    end.
Proof. reflexivity. Qed.

Lemma parse_elements_join l :
  l ≠ [] → Forall roundtrips l → Forall json_wf l →
  ∀ f rest, sum_list (map (λ x, S (json_size x)) l) ≤ f →
  parse_elements f (join "," (map stringify l) +:+ String "]" rest) = Some (l, rest).
Proof.
  induction l as [|x l IH]; [done|]. intros _ Hall Hwf f rest Hf.
  apply Forall_cons in Hall as [Hx Hall]. apply Forall_cons in Hwf as [Hwx Hwf].
  destruct f as [|f]; [simpl in Hf; lia|]. rewrite parse_elements_S.
  simpl in Hf. destruct l as [|y l].
  - change (join "," (map stringify [x])) with (stringify x).
    rewrite (Hx Hwx f (String "]" rest)) by (done || lia). done.
  - change (map stringify (x :: y :: l)) with (stringify x :: stringify y :: map stringify l).
    rewrite join_cons2, !append_assoc, append_cons, append_nil_l.
    rewrite (Hx Hwx f) by (done || lia).
    change (stringify y :: map stringify l) with (map stringify (y :: l)).
    simpl skip_ws. cbv iota beta. rewrite Ascii.eqb_refl.
    rewrite IH; [done..|]. simpl in *. lia.
Qed.

Lemma member_text_app k v R :
  member_text (k, v) +:+ R =
  String dquote (escape k +:+ String dquote (String ":" (stringify v +:+ R))).
Proof.
  unfold member_text, quote. simpl fst. simpl snd.
  by rewrite !append_cons, !append_assoc, !append_cons, !append_assoc, !append_nil_l.
Qed.

Lemma parse_members_join l :
  l ≠ [] → Forall (λ kv, roundtrips (snd kv)) l → Forall (λ kv, json_wf (snd kv)) l →
  ∀ f rest, sum_list (map (λ kv, S (json_size (snd kv))) l) ≤ f →
  parse_members f (join "," (map member_text l) +:+ String "}" rest) = Some (l, rest).
Proof.
  induction l as [|[k v] l IH]; [done|]. intros _ Hall Hwf f rest Hf.
  apply Forall_cons in Hall as [Hx Hall]. apply Forall_cons in Hwf as [Hwx Hwf].
  simpl in Hx, Hwx.
  destruct f as [|f]; [simpl in Hf; lia|].
  simpl in Hf. destruct l as [|y l].
  - change (join "," (map member_text [(k, v)])) with (member_text (k, v)).
    rewrite member_text_app, parse_members_dquote, parse_string_body_escape.
    simpl skip_ws. cbv iota beta. rewrite Ascii.eqb_refl.
    rewrite (Hx Hwx f (String "}" rest)) by (done || lia). done.
  - change (map member_text ((k, v) :: y :: l))
      with (member_text (k, v) :: member_text y :: map member_text l).
    rewrite join_cons2, append_assoc, member_text_app.
    rewrite parse_members_dquote, parse_string_body_escape.
    simpl skip_ws. cbv iota beta. rewrite Ascii.eqb_refl.
    rewrite append_assoc, append_cons, append_nil_l.
    rewrite (Hx Hwx f) by (done || lia).
    change (member_text y :: map member_text l) with (map member_text (y :: l)).
    simpl skip_ws. cbv iota beta. rewrite Ascii.eqb_refl.
    rewrite IH; [done..|]. simpl in *. lia.
Qed.

Lemma foldr_and_Forall {A} (P : A → Prop) l :
  foldr (λ x Q, P x ∧ Q) True l ↔ Forall P l.
Proof.
  induction l as [|x l IH]; simpl; [by split|].
  rewrite Forall_cons. by rewrite IH.
Qed.

Lemma join_head sep c s l : ∃ Z, join sep (String c s :: l) = String c Z.
Proof. destruct l; [by eexists|]. rewrite join_cons2, append_cons. by eexists. Qed.

Lemma skip_ws_head c Z : is_ws c = false → skip_ws (String c Z) = String c Z.
Proof. intros H. simpl. by rewrite H. Qed.

Ltac norm_app :=
  repeat (rewrite append_cons || rewrite append_nil_l || rewrite append_assoc).

(** Parsing the text of a value gives the value back. *)
Lemma parse_value_stringify j : roundtrips j.
Proof.
  induction j as [|b|z|s|l IH|l IH] using json_ind; intros Hwf fuel rest Hf Hrest;
    (destruct fuel as [|f]; [simpl in Hf; lia|]).
  - done.
  - by destruct b.
  - destruct (string_of_Z_head z) as (c & s & Hs & Hc).
    change (stringify (JNum z)) with (string_of_Z z).
    pose proof (parse_number_string_of_Z z rest Hrest) as Hp.
    rewrite Hs, append_cons in Hp |- *.
    by rewrite parse_value_number, Hp.
  - change (stringify (JString s)) with (String dquote (escape s +:+ String dquote "")).
    rewrite append_cons, append_assoc, append_cons, append_nil_l.
    by rewrite parse_value_dquote, parse_string_body_escape.
  - change (stringify (JArray l)) with ("[" +:+ join "," (map stringify l) +:+ "]").
    norm_app. rewrite parse_value_array.
    simpl in Hwf. apply foldr_and_Forall in Hwf.
    destruct l as [|x l]; [done|].
    destruct (stringify_head x) as (c & s & Hs & Hws & Hb & _).
    destruct (join_head "," c s (map stringify l)) as [Z HZ].
    assert (skip_ws (join "," (map stringify (x :: l)) +:+ String "]" rest)
            = String c (Z +:+ String "]" rest)) as ->.
    { simpl map. rewrite Hs, HZ, append_cons. by apply skip_ws_head. }
    rewrite Hb. rewrite parse_elements_join; [done..|]. simpl in Hf |- *. lia.
  - change (stringify (JObject l)) with ("{" +:+ join "," (map member_text l) +:+ "}").
    norm_app. rewrite parse_value_object.
    simpl in Hwf. destruct Hwf as [Hnd Hwf]. apply foldr_and_Forall in Hwf.
    destruct l as [|[k v] l]; [done|].
    assert (∃ Z, join "," (map member_text ((k, v) :: l)) +:+ String "}" rest
                 = String dquote Z) as [Z HZ].
    { simpl map. unfold member_text at 1, quote. simpl fst. rewrite append_cons.
      destruct (join_head "," dquote
                  ((escape k +:+ String dquote "") +:+ ":" +:+ stringify (snd (k, v)))
                  (map member_text l)) as [Z ->].
      rewrite append_cons. by eexists. }
    assert (skip_ws (join "," (map member_text ((k, v) :: l)) +:+ String "}" rest)
            = String dquote Z) as -> by (rewrite HZ; reflexivity).
    change (Ascii.eqb dquote "}") with false. cbv iota.
    rewrite parse_members_join; [|done..|simpl in Hf |- *; lia].
    by rewrite foldl_set_nodup.
Qed.

Lemma append_nil_r (a : string) : a +:+ "" = a.
Proof. induction a as [|x a IH]; [done|]. rewrite append_cons. by f_equal. Qed.

Lemma join_length_bound {A} (size : A → nat) (text : A → string) l :
  Forall (λ x, size x ≤ String.length (text x)) l →
  sum_list (map (λ x, S (size x)) l) ≤ S (String.length (join "," (map text l))).
Proof.
  induction l as [|x l IH]; intros Hall; [simpl; lia|].
  apply Forall_cons in Hall as [Hx Hall]. specialize (IH Hall).
  destruct l as [|y l].
  - simpl. lia.
  - change (map text (x :: y :: l)) with (text x :: text y :: map text l).
    rewrite join_cons2, !append_length.
    change (text y :: map text l) with (map text (y :: l)).
    change (sum_list (map (λ x, S (size x)) (x :: y :: l)))
      with (S (size x) + sum_list (map (λ x, S (size x)) (y :: l))).
    change (String.length ",") with 1. lia.
Qed.

Lemma json_size_le j : json_size j ≤ String.length (stringify j).
Proof.
  induction j as [|b|z|s|l IH|l IH] using json_ind.
  - simpl. lia.
  - destruct b; simpl; lia.
  - destruct (string_of_Z_head z) as (c & s & Hs & _).
    change (stringify (JNum z)) with (string_of_Z z). rewrite Hs. simpl. lia.
  - simpl. lia.
  - change (stringify (JArray l)) with ("[" +:+ join "," (map stringify l) +:+ "]").
    rewrite !append_length.
    change (String.length "[") with 1. change (String.length "]") with 1.
    change (json_size (JArray l)) with (S (sum_list (map (λ x, S (json_size x)) l))).
    pose proof (join_length_bound json_size stringify l IH). lia.
  - change (stringify (JObject l)) with ("{" +:+ join "," (map member_text l) +:+ "}").
    rewrite !append_length.
    change (String.length "{") with 1. change (String.length "}") with 1.
    change (json_size (JObject l))
      with (S (sum_list (map (λ kv, S (json_size (snd kv))) l))).
    assert (Forall (λ kv, json_size (snd kv) ≤ String.length (member_text kv)) l) as Hall.
    { eapply Forall_impl; [exact IH|]. intros [k v] Hv. simpl in Hv |- *.
      unfold member_text. rewrite !append_length. simpl snd. lia. }
    pose proof (join_length_bound (λ kv, json_size (snd kv)) member_text l Hall). lia.
Qed.

(** [JSON.parse (JSON.stringify j)] is [j]. *)
Lemma parse_stringify j : json_wf j → JSON.parse (stringify j) = Some j.
Proof.
  intros Hwf. unfold parse.
  pose proof (parse_value_stringify j Hwf (S (String.length (stringify j))) "") as H.
  rewrite append_nil_r in H. rewrite H; [done| |done].
  pose proof (json_size_le j). lia.
Qed.

(** ** Handlers *)

(** *** What a computation keeps, by its shape *)

Section Frames.
Context (R : relation World) `{!PreOrder R}.

Lemma frames_ret {A} (a : A) : frames R (mret a).
Proof. intros w. simpl. reflexivity. Qed.

Lemma frames_gets {A} (f : World → A) : frames R (gets f).
Proof. intros w. simpl. reflexivity. Qed.

Lemma frames_throw {A} e : frames R (throw (A:=A) e).
Proof. intros w. simpl. reflexivity. Qed.

Lemma frames_beyond {A} : frames R (beyond (A:=A)).
Proof. intros w. simpl. reflexivity. Qed.

Lemma frames_lift {A} (r : Res A) : frames R (lift r).
Proof. intros w. simpl. reflexivity. Qed.

Lemma frames_await {A} (p : Promise A) : frames R (await p).
Proof. destruct p; intros w; simpl; reflexivity. Qed.

Lemma frames_modify f : (∀ w, R w (f w)) → frames R (modify f).
Proof. intros H w. apply H. Qed.

Lemma frames_bind {A B} (m : M A) (f : A → M B) :
  frames R m → (∀ a, frames R (f a)) → frames R (m ≫= f).
Proof.
  intros Hm Hf w. specialize (Hm w). unfold mbind, M_bind.
  destruct (m w) as [[a| e |] w1]; simpl in *; [|done..].
  etrans; [exact Hm|apply Hf].
Qed.

Lemma frames_try_catch {A} (m : M A) h :
  frames R m → (∀ e, frames R (h e)) → frames R (try_catch m h).
Proof.
  intros Hm Hh w. specialize (Hm w). unfold try_catch.
  destruct (m w) as [[a| e |] w1]; simpl in *; [done| |done].
  etrans; [exact Hm|apply Hh].
Qed.

Lemma frames_finally {A} (m : M A) f :
  frames R m → frames R f → frames R (finally m f).
Proof.
  intros Hm Hf w. specialize (Hm w). unfold finally.
  destruct (m w) as [r w1]. specialize (Hf w1).
  destruct (f w1) as [[[]| e |] w2]; simpl in *; etrans; eauto.
Qed.

Lemma frames_mapM {A B} (f : A → M B) l :
  (∀ x, frames R (f x)) → frames R (mapM f l).
Proof.
  intros Hf. induction l as [|x l IH]; simpl.
  - apply frames_ret.
  - apply frames_bind; [apply Hf|]. intros y.
    apply frames_bind; [apply IH|]. intros k. apply frames_ret.
Qed.
End Frames.

(** *** The two relations *)

Global Instance keeps_preorder : PreOrder keeps.
Proof.
split.
- intros w. unfold keeps. split_and!; try done. exists []. by rewrite app_nil_r.
- intros w1 w2 w3 (Hm1 & Hh1 & e1 & Hl1 & He1) (Hm2 & Hh2 & e2 & Hl2 & He2).
  unfold keeps. split_and!; [congruence|by etrans|].
  exists (e1 ++ e2). rewrite Hl2, Hl1, app_assoc. split; [done|]. by apply Forall_app.
Qed.

Global Instance extends_preorder : PreOrder extends.
Proof.
split.
- intros w. by split.
- intros w1 w2 w3 (Hk1 & Hs1 & Hq1) (Hk2 & Hs2 & Hq2).
  split_and!; [by etrans|congruence..].
Qed.

Lemma keeps_with_auth f w : keeps w (with_auth f w).
Proof. unfold keeps. simpl. split_and!; try done. exists []. by rewrite app_nil_r. Qed.

Lemma keeps_with_localStorage f w : keeps w (with_localStorage f w).
Proof. unfold keeps. simpl. split_and!; try done. exists []. by rewrite app_nil_r. Qed.

Lemma keeps_with_queued b w : keeps w (with_queued b w).
Proof. unfold keeps. simpl. split_and!; try done. exists []. by rewrite app_nil_r. Qed.

Lemma keeps_emit e w : is_load e = false → keeps w (with_log (λ l, l ++ [e]) w).
Proof.
intros He. unfold keeps. simpl. split_and!; try done.
exists [e]. split; [done|]. by constructor.
Qed.

Lemma keeps_alloc o w : keeps w (with_heap (insert (fresh (dom (heap w))) o) w).
Proof.
unfold keeps. simpl. split_and!; try done.
- apply insert_subseteq. apply not_elem_of_dom. apply is_fresh.
- exists []. by rewrite app_nil_r.
Qed.

Lemma extends_with_auth f w : extends w (with_auth f w).
Proof. split; [apply keeps_with_auth|done]. Qed.

Lemma extends_emit e w : is_load e = false → extends w (with_log (λ l, l ++ [e]) w).
Proof. intros He. split; [by apply keeps_emit|done]. Qed.

Lemma extends_alloc o w :
extends w (with_heap (insert (fresh (dom (heap w))) o) w).
Proof. split; [apply keeps_alloc|done]. Qed.

Ltac frame_step :=
lazymatch goal with
| |- frames ?R (_ ≫= _) => apply (frames_bind R); [|intros ?]
| |- frames ?R (mret _) => apply (frames_ret R)
| |- frames ?R (gets _) => apply (frames_gets R)
| |- frames ?R (throw _) => apply (frames_throw R)
| |- frames ?R beyond => apply (frames_beyond R)
| |- frames ?R (lift _) => apply (frames_lift R)
| |- frames ?R (await _) => apply (frames_await R)
| |- frames ?R (try_catch _ _) => apply (frames_try_catch R); [|intros ?]
| |- frames ?R (finally _ _) => apply (frames_finally R)
| |- frames ?R (mapM _ _) => apply (frames_mapM R); intros ?
| |- frames ?R (emit _) => apply (frames_modify R); intros ?; by apply extends_emit
| |- frames ?R (toast_add _ _ _) => apply (frames_modify R); intros ?; by apply extends_emit
| |- frames ?R (console_log _) => apply (frames_modify R); intros ?; by apply extends_emit
| |- frames ?R (console_error _) => apply (frames_modify R); intros ?; by apply extends_emit
| |- frames ?R (set_isAuthenticated _) =>
    apply (frames_modify R); intros ?; apply extends_with_auth
| |- frames ?R (set_authenticationInProgress _) =>
    apply (frames_modify R); intros ?; apply extends_with_auth
| |- frames ?R (set_keycloak _) =>
    apply (frames_modify R); intros ?; apply extends_with_auth
| |- frames _ (if ?b then _ else _) => destruct b
| |- frames _ (match ?x with _ => _ end) => destruct x
end.

(** *** Authentication touches neither table nor storage *)

Lemma frames_keycloak_new env : frames extends (keycloak_new env).
Proof. unfold keycloak_new. repeat frame_step. Qed.

Lemma frames_keycloak_init env s : frames extends (keycloak_init env s).
Proof. unfold keycloak_init. repeat frame_step. Qed.

Lemma frames_initializeAuthentication env : frames extends (initializeAuthentication env).
Proof.
unfold initializeAuthentication.
repeat (frame_step || apply frames_keycloak_new || apply frames_keycloak_init).
Qed.

Lemma frames_validateAndRefreshToken env : frames extends (validateAndRefreshToken env).
Proof. unfold validateAndRefreshToken. repeat frame_step. Qed.

Lemma frames_ensureAuthenticated env : frames extends (ensureAuthenticated env).
Proof.
unfold ensureAuthenticated.
repeat (frame_step || apply frames_initializeAuthentication
        || apply frames_validateAndRefreshToken).
Qed.

(** *** Running a computation step by step *)

Lemma with_heap_insert_insert l o o' w :
with_heap (insert l o') (with_heap (insert l o) w) = with_heap (insert l o') w.
Proof. unfold with_heap. simpl. f_equal. apply insert_insert_eq. Qed.

Lemma run_bind {A B} (m : M A) (f : A → M B) w a w1 :
m w = (Ok a, w1) → (m ≫= f) w = f a w1.
Proof. intros H. unfold mbind, M_bind. by rewrite H. Qed.

Lemma run_bind_throw {A B} (m : M A) (f : A → M B) w e w1 :
m w = (Throw e, w1) → (m ≫= f) w = (Throw e, w1).
Proof. intros H. unfold mbind, M_bind. by rewrite H. Qed.

Lemma run_bind_beyond {A B} (m : M A) (f : A → M B) w w1 :
m w = (Beyond, w1) → (m ≫= f) w = (Beyond, w1).
Proof. intros H. unfold mbind, M_bind. by rewrite H. Qed.

Lemma deref_ok l w o : heap w !! l = Some o → deref l w = (Ok o, w).
Proof. intros H. unfold deref. by rewrite H. Qed.

Lemma alloc_eq o w :
alloc o w = (Ok (fresh (dom (heap w))), with_heap (insert (fresh (dom (heap w))) o) w).
Proof. reflexivity. Qed.

Lemma get_prop_ok l k w o :
heap w !! l = Some o → get_prop l k w = (Ok (Value.get o k), w).
Proof. intros H. unfold get_prop. by rewrite (run_bind _ _ _ _ _ (deref_ok _ _ _ H)). Qed.

Lemma set_prop_ok l k v w o :
heap w !! l = Some o →
set_prop l k v w = (Ok tt, with_heap (insert l (Value.set o k v)) w).
Proof. intros H. unfold set_prop. by rewrite (run_bind _ _ _ _ _ (deref_ok _ _ _ H)). Qed.

Lemma call_hasOwnProperty_ok l k w o :
heap w !! l = Some o → Value.get o "hasOwnProperty" = None →
call_hasOwnProperty l k w = (Ok (bool_decide (is_Some (Value.get o k))), w).
Proof.
intros H Hm. unfold call_hasOwnProperty.
rewrite (run_bind _ _ _ _ _ (deref_ok _ _ _ H)). by rewrite Hm.
Qed.

Lemma call_hasOwnProperty_shadowed l k w o s :
heap w !! l = Some o → Value.get o "hasOwnProperty" = Some s →
call_hasOwnProperty l k w =
  (Throw (TypeError "newRow.hasOwnProperty is not a function"), w).
Proof.
intros H Hm. unfold call_hasOwnProperty.
rewrite (run_bind _ _ _ _ _ (deref_ok _ _ _ H)). by rewrite Hm.
Qed.

(** The callback of the upload map, on a row of the store: the row is
    copied to a new location and only the copy is written. *)
Lemma upload_row_eq l w o :
heap w !! l = Some o →
upload_row l w =
  let l' := fresh (dom (heap w)) in
  if truthy (Value.get o "accessionVersion") && truthy (Value.get o "SampleID") then
    (Ok l', with_heap (insert l' (Value.set o "id" (id_of o))) w)
  else
    match Value.get o "hasOwnProperty" with
    | Some _ =>
        (Throw (TypeError "newRow.hasOwnProperty is not a function"),
         with_heap (insert l' o) w)
    | None =>
        match Value.get o "id" with
        | Some _ => (Ok l', with_heap (insert l' o) w)
        | None => (Ok l', with_heap (insert l' (Value.set o "id" "")) w)
        end
    end.
Proof.
intros Hl. unfold upload_row. cbv zeta.
rewrite (run_bind _ _ _ _ _ (deref_ok _ _ _ Hl)).
rewrite (run_bind _ _ _ _ _ (alloc_eq _ _)).
set (l' := fresh (dom (heap w))). set (w1 := with_heap (insert l' o) w).
assert (heap w1 !! l' = Some o) as Hl' by apply lookup_insert_eq.
rewrite (run_bind _ _ _ _ _ (get_prop_ok _ _ _ _ Hl')).
rewrite (run_bind _ _ _ _ _ (get_prop_ok _ _ _ _ Hl')).
destruct (truthy (Value.get o "accessionVersion") && truthy (Value.get o "SampleID"));
  cbv iota.
- rewrite (run_bind _ _ _ _ _ (set_prop_ok _ _ _ _ _ Hl')).
  unfold w1. by rewrite with_heap_insert_insert.
- destruct (Value.get o "hasOwnProperty") as [s|] eqn:Hm.
  + apply run_bind_throw, run_bind_throw.
    by apply call_hasOwnProperty_shadowed with o s.
  + unfold mbind, M_bind.
    rewrite (call_hasOwnProperty_ok _ _ _ _ Hl' Hm).
    destruct (Value.get o "id") eqn:Hid.
    * rewrite bool_decide_eq_true_2 by eauto. done.
    * rewrite bool_decide_eq_false_2 by (by intros [? ?]). cbv beta iota delta [negb].
      rewrite (set_prop_ok _ _ _ _ _ Hl'). unfold w1.
      by rewrite with_heap_insert_insert.
Qed.

(** *** Upload and the watcher *)

Lemma frames_deref (R : relation World) `{!PreOrder R} l : frames R (deref l).
Proof. intros w. unfold deref. destruct (heap w !! l); simpl; reflexivity. Qed.

Lemma frames_upload_row l : frames extends (upload_row l).
Proof.
intros w. destruct (heap w !! l) as [o|] eqn:Hl.
- rewrite (upload_row_eq l w o Hl). cbv zeta.
  repeat case_match; simpl; apply extends_alloc.
- unfold upload_row.
  assert (deref l w = (Beyond, w)) as H by (unfold deref; by rewrite Hl).
  rewrite (run_bind_beyond _ _ _ _ H). simpl. reflexivity.
Qed.

Lemma frames_dataForUpload : frames extends dataForUpload.
Proof. unfold dataForUpload. repeat (frame_step || apply frames_upload_row). Qed.

Lemma frames_uploadMetadata env : frames extends (uploadMetadata env).
Proof.
unfold uploadMetadata. cbv zeta.
repeat (frame_step || apply frames_ensureAuthenticated || apply frames_dataForUpload
        || apply (frames_deref extends)).
Qed.

Lemma extends_keeps w w' : extends w w' → keeps w w'.
Proof. by intros [? _]. Qed.

Lemma frames_weaken {A} (R R' : relation World) (m : M A) :
(∀ w w', R w w' → R' w w') → frames R m → frames R' m.
Proof. intros HR Hm w. apply HR, Hm. Qed.

Lemma frames_watch_callback : frames keeps watch_callback.
Proof.
unfold watch_callback.
repeat (frame_step || apply (frames_deref keeps)).
apply (frames_modify keeps). intros w. apply keeps_with_localStorage.
Qed.

Lemma frames_flush : frames keeps flush.
Proof.
unfold flush. repeat (frame_step || apply frames_watch_callback).
apply (frames_modify keeps). intros w. apply keeps_with_queued.
Qed.

Lemma frames_handler {A} (m : M A) : frames keeps m → frames keeps (handler m).
Proof. intros Hm. unfold handler. apply (frames_finally keeps); [done|apply frames_flush]. Qed.

(** ** Start-up *)

Lemma with_heap_id w : with_heap (λ _, heap w) w = w.
Proof. by destruct w. Qed.

Lemma mapM_alloc data w :
∃ ls h', mapM alloc data w = (Ok ls, with_heap (λ _, h') w) ∧ heap w ⊆ h' ∧
         Forall2 (λ l o, h' !! l = Some o) ls data.
Proof.
revert w. induction data as [|o data IH]; intros w.
- exists [], (heap w). by rewrite with_heap_id.
- destruct (IH (with_heap (insert (fresh (dom (heap w))) o) w)) as (ls & h' & Hrun & Hsub & Hall).
  exists (fresh (dom (heap w)) :: ls), h'. split_and!.
  + change (mapM alloc (o :: data))
      with (y ← alloc o; k ← mapM alloc data; mret (M:=M) (y :: k)).
    rewrite (run_bind _ _ _ _ _ (alloc_eq _ _)).
    rewrite (run_bind _ _ _ _ _ Hrun). done.
  + etrans; [|exact Hsub]. simpl.
    apply insert_subseteq, not_elem_of_dom, is_fresh.
  + constructor; [|done]. eapply lookup_weaken; [|exact Hsub]. simpl.
    apply lookup_insert_eq.
Qed.

Lemma row_of_json_of_row o : row_of_json (json_of_row o) = Some o.
Proof.
unfold row_of_json, json_of_row. apply mapM_Some.
induction o as [|[k v] o IH]; constructor; done.
Qed.

Lemma column_of_json_of_column c : column_of_json (json_of_column c) = Some c.
Proof. by destruct c. Qed.

Lemma mapM_decode {A} (dec : json → option A) (enc : A → json) l :
(∀ x, dec (enc x) = Some x) → mapM dec (map enc l) = Some l.
Proof.
intros H. apply mapM_Some. induction l; constructor; auto.
Qed.

Lemma json_wf_row o : NoDup o.*1 → json_wf (json_of_row o).
Proof.
intros Hnd. simpl. split.
- replace ((map (λ kv : string * string, (kv.1, JString kv.2)) o).*1) with (o.*1); [done|].
  induction o as [|[k v] o IH]; simpl; [done|]. f_equal. apply IH. by inversion Hnd.
- apply foldr_and_Forall. clear Hnd. induction o; constructor; done.
Qed.

Lemma json_wf_state S : distinct_keys S →
json_wf (json_of_state (snap_rows S) (snap_columns S) (snap_selection S) (snap_source S)).
Proof.
intros Hd. unfold json_of_state. cbn [json_wf fmap list_fmap foldr snd fst].
split_and!; try done.
- by apply (bool_decide_unpack _).
- apply foldr_and_Forall. apply Forall_map (* wf rows *).
  eapply Forall_impl; [exact Hd|]. intros o. apply json_wf_row.
- apply foldr_and_Forall, Forall_map, Forall_forall. intros c _.
  simpl. split_and!; try done. by apply (bool_decide_unpack _).
- apply foldr_and_Forall, Forall_map, Forall_forall. by intros.
Qed.

Lemma restore_state_ok S w :
∃ ls h',
  restore_state (json_of_state (snap_rows S) (snap_columns S) (snap_selection S)
                               (snap_source S)) w
    = (Ok tt, restored S ls h' w) ∧
  heap w ⊆ h' ∧ Forall2 (λ l o, h' !! l = Some o) ls (snap_rows S).
Proof.
destruct (mapM_alloc (snap_rows S) w) as (ls & h' & Hrun & Hsub & Hall).
exists ls, h'. split; [|done].
unfold restore_state, json_of_state.
cbn [Value.get String.eqb Ascii.eqb Bool.eqb mbind option_bind list_of_json string_of_json].
rewrite (mapM_decode _ _ _ row_of_json_of_row).
rewrite (mapM_decode _ _ _ column_of_json_of_column).
rewrite (mapM_decode string_of_json JString) by done.
rewrite (run_bind _ _ _ _ _ Hrun). done.
Qed.

Lemma stored_truthy S : truthy (Some (stored S)) = true.
Proof.
unfold stored, json_of_state.
match goal with |- context [JSON.stringify (JObject ?l)] =>
  change (JSON.stringify (JObject l)) with ("{" +:+ join "," (map member_text l) +:+ "}")
end.
by rewrite append_cons.
Qed.

Lemma snapshot_restored S ls h' w w' :
Forall2 (λ l o, h' !! l = Some o) ls (snap_rows S) →
keeps (restored S ls h' w) w' → snapshot w' = Some S.
Proof.
intros Hall (Hm & Hh & _). unfold snapshot. rewrite Hm. simpl.
assert (mapM (λ l, heap w' !! l) ls = Some (snap_rows S)) as ->.
{ apply mapM_Some. eapply Forall2_impl; [exact Hall|]. simpl.
  intros l o Hl. by eapply lookup_weaken. }
simpl. by destruct S.
Qed.

Lemma handler_keeps {A} (m : M A) w :
keeps (m w).2 (handler m w).2.
Proof.
unfold handler, finally. destruct (m w) as [r w1]. simpl.
pose proof (frames_flush w1) as H.
by destruct (flush w1) as [[[]| |] w2].
Qed.

Lemma mounted_restores env S w :
localStorage w !! KEY = Some (stored S) → distinct_keys S →
∃ ls h', Forall2 (λ l o, h' !! l = Some o) ls (snap_rows S) ∧
         keeps (restored S ls h' w) (handler (onMounted env) w).2.
Proof.
intros Hst Hd.
destruct (restore_state_ok S w) as (ls & h' & Hrun & Hsub & Hall).
exists ls, h'. split; [done|].
etrans; [|apply handler_keeps].
unfold onMounted.
rewrite (run_bind (gets _) _ w (localStorage w !! KEY) w) by done.
rewrite Hst, stored_truthy. simpl default.
unfold stored at 1. rewrite parse_stringify by by apply json_wf_state.
rewrite (run_bind _ _ _ _ _ Hrun).
apply extends_keeps.
destruct (hasAuthParams env); [apply frames_initializeAuthentication|reflexivity].
Qed.


(** ** The upload row set (C1) *)

Lemma get_set_eq {A} (o : list (string * A)) k v : Value.get (Value.set o k v) k = Some v.
Proof.
  induction o as [|[k' v'] o IH]; simpl.
  - by rewrite String.eqb_refl.
  - destruct (String.eqb_spec k' k) as [->|Hne]; simpl.
    + by rewrite String.eqb_refl.
    + by destruct (String.eqb_spec k' k).
Qed.

Lemma get_set_ne {A} (o : list (string * A)) k k' v :
  k' ≠ k → Value.get (Value.set o k v) k' = Value.get o k'.
Proof.
  intros Hne. induction o as [|[k0 v0] o IH]; simpl.
  - by destruct (String.eqb_spec k k').
  - destruct (String.eqb_spec k0 k) as [->|H0]; simpl.
    + by destruct (String.eqb_spec k k').
    + by rewrite IH.
Qed.

(** On every row whose columns leave [hasOwnProperty] alone, the callback
    returns a new object made by the rule. *)
Lemma upload_row_id l w o :
  heap w !! l = Some o → Value.get o "hasOwnProperty" = None →
  ∃ o', upload_row l w = (Ok (fresh (dom (heap w))),
                          with_heap (insert (fresh (dom (heap w))) o') w) ∧
        id_rule o o'.
Proof.
  intros Hl Hm. rewrite (upload_row_eq l w o Hl). cbv zeta. rewrite Hm.
  unfold id_rule, id_of.
  destruct (Value.get o "accessionVersion") as [a|], (Value.get o "SampleID") as [s|];
    simpl truthy; simpl template;
    try destruct (negb (String.eqb a "") && negb (String.eqb s "")); simpl andb; cbv iota;
    try rewrite andb_false_r;
    try (destruct (Value.get o "id") as [i|] eqn:Hi; simpl default;
         [exists o; by split_and!
         |exists (Value.set o "id" ""); split_and!;
            [done|by intros; apply get_set_ne|apply get_set_eq]]).
  exists (Value.set o "id" (a +:+ "|" +:+ s)). split_and!;
    [done|by intros; apply get_set_ne|apply get_set_eq].
Qed.

(** So does the whole map, on a table none of whose rows has such a
    column: one new object per row, each made by the rule. *)
Lemma upload_rows_id ls rows w :
  Forall2 (λ l o, heap w !! l = Some o) ls rows →
  Forall (λ o : obj, Value.get o "hasOwnProperty" = None) rows →
  ∃ ls' w', mapM upload_row ls w = (Ok ls', w') ∧ extends w w' ∧
            Forall2 (λ l' o, ∃ o', heap w' !! l' = Some o' ∧ id_rule o o') ls' rows.
Proof.
  intros Hall. revert ls w Hall. induction rows as [|o rows IH]; intros ls w Hall Hm.
  - apply Forall2_nil_inv_r in Hall as ->. exists [], w. by split_and!.
  - apply Forall2_cons_inv_r in Hall as (l & ls0 & Hl & Hall & ->).
    apply Forall_cons in Hm as [Ho Hm].
    destruct (upload_row_id l w o Hl Ho) as (o' & Hrun & Hrule).
    set (w1 := with_heap (insert (fresh (dom (heap w))) o') w) in *.
    assert (extends w w1) as Hext.
    { pose proof (frames_upload_row l w) as H. by rewrite Hrun in H. }
    destruct (IH ls0 w1) as (ls' & w2 & Hrun2 & Hext2 & Hall2); [|done|].
    { eapply Forall2_impl; [exact Hall|]. simpl. intros l0 o0 H0.
      eapply lookup_weaken; [exact H0|]. apply Hext. }
    exists (fresh (dom (heap w)) :: ls'), w2. split_and!.
    + change (mapM upload_row (l :: ls0))
        with (y ← upload_row l; k ← mapM upload_row ls0; mret (M:=M) (y :: k)).
      rewrite (run_bind _ _ _ _ _ Hrun). by rewrite (run_bind _ _ _ _ _ Hrun2).
    + by etrans.
    + constructor; [|done]. exists o'. split; [|done].
      eapply lookup_weaken; [|apply Hext2]. apply lookup_insert_eq.
Qed.

(** C1.  The upload row-building step does not produce a copy of every
    row record: on a row that has a property named [hasOwnProperty] (a
    table with such a column) and lacks a non-empty [accessionVersion] or
    [SampleID], the call [newRow.hasOwnProperty('id')] reaches the string
    held by the row, and the step throws a [TypeError] instead of keeping
    the existing [id] or setting [id] to the empty string. *)
Theorem C1_upload_row_shadowed l w o s :
  heap w !! l = Some o →
  Value.get o "hasOwnProperty" = Some s →
  truthy (Value.get o "accessionVersion") && truthy (Value.get o "SampleID") = false →
  (upload_row l w).1 = Throw (TypeError "newRow.hasOwnProperty is not a function").
Proof.
  intros Hl Hs Hb. rewrite (upload_row_eq l w o Hl). cbv zeta. by rewrite Hb, Hs.
Qed.

Lemma C1_upload_row_shadowed_witness :
  (upload_row 1%positive (example_world shadowing_row)).1
    = Throw (TypeError "newRow.hasOwnProperty is not a function").
Proof.
  apply (C1_upload_row_shadowed 1%positive (example_world shadowing_row) shadowing_row "x");
    reflexivity.
Defined.

(** With such a table the whole upload ends in its [catch] block, after
    the two fetches and before any submission. *)
Example upload_shadowed_column :
  log (handler (uploadMetadata example_env) (example_world shadowing_row)).2 =
    [KeycloakNew (Some "https://auth.example") (Some "r") (Some "c");
     ConsoleLog "Initializing Keycloak authentication...";
     KeycloakInit "check-sso";
     ConsoleLog "Authentication result:";
     Toast "success" "Authentication Successful" "You are now authenticated";
     Fetch {| url := "https://api.example/user/groups"; method := "GET";
              authorization := Some "Bearer t"; form := [] |};
     Fetch {| url := "https://files.example/s.fasta"; method := "GET";
              authorization := None; form := [] |};
     ConsoleError "Upload error:";
     Toast "error" "Error" "An error occurred during upload"].
Proof. vm_compute. reflexivity. Qed.

(** ** The upload header (C2) *)

Lemma lower_ascii_i c : lower_ascii c = "i"%char ↔ c = "i"%char ∨ c = "I"%char.
Proof.
  destruct c as [[] [] [] [] [] [] [] []]; vm_compute; split;
    (done || (intros [H|H]; discriminate H) || auto).
Qed.

Lemma lower_ascii_d c : lower_ascii c = "d"%char ↔ c = "d"%char ∨ c = "D"%char.
Proof.
  destruct c as [[] [] [] [] [] [] [] []]; vm_compute; split;
    (done || (intros [H|H]; discriminate H) || auto).
Qed.

(** The fields that lower to ["id"]. *)
Lemma toLowerCase_id h :
  toLowerCase h = "id" ↔ h = "id" ∨ h = "Id" ∨ h = "iD" ∨ h = "ID".
Proof.
  split.
  - destruct h as [|c1 [|c2 [|c3 r]]]; simpl; try done.
    intros [= H1 H2]. apply lower_ascii_i in H1 as [-> | ->];
      apply lower_ascii_d in H2 as [-> | ->]; auto.
  - intros [-> | [-> | [-> | ->]]]; reflexivity.
Qed.

Lemma headers_filter fields :
  List.filter (λ h, negb (String.eqb (toLowerCase h) "id") && negb (String.eqb h "submissionId"))
              fields
  = filter (λ h, toLowerCase h ≠ "id" ∧ h ≠ "submissionId") fields.
Proof.
  induction fields as [|h fields IH]; [done|]. simpl. rewrite filter_cons, IH.
  destruct (String.eqb_spec (toLowerCase h) "id") as [He|He];
    destruct (String.eqb_spec h "submissionId") as [Hs|Hs]; simpl;
    destruct (decide (toLowerCase h ≠ "id" ∧ h ≠ "submissionId")) as [[? ?]|Hn];
    try done; exfalso; apply Hn; done.
Qed.

(** C2.  For every list of original column fields, the upload header is
    ["id"] followed by the fields, in their order, that neither lower to
    ["id"] nor equal ["submissionId"]; for [foo, id, submissionId, bar] it
    is [id, foo, bar]. *)
Theorem C2_headersForUpload :
  (∀ fields, headersForUpload fields
             = "id" :: filter (λ h, toLowerCase h ≠ "id" ∧ h ≠ "submissionId") fields) ∧
  headersForUpload ["foo"; "id"; "submissionId"; "bar"] = ["id"; "foo"; "bar"].
Proof.
  split; [|reflexivity]. intros fields. unfold headersForUpload. by rewrite headers_filter.
Qed.

(** ** The submission URL (C3) *)

Lemma replace_trailing_slash_app base : replace_trailing_slash (base +:+ "/") = base.
Proof.
  induction base as [|c r IH]; [done|].
  rewrite append_cons. simpl. rewrite IH.
  destruct r; simpl; by rewrite andb_false_r.
Qed.

Lemma replace_trailing_slash_id s : ends_with_slash s = false → replace_trailing_slash s = s.
Proof.
  induction s as [|c r IH]; [done|]. simpl. destruct r as [|c' r'].
  - intros ->. done.
  - intros H. rewrite andb_false_r. by rewrite IH.
Qed.

(** C3.  When the first element of the group list has a [groupId], the
    submission URL is the return URL without its trailing slash (if it
    ends with one), then [/organism/revise?groupId=] with that group id
    and [&dataUseTermsType=OPEN]. *)
Theorem C3_revisionUrl organism props rest gid :
  Value.get props "groupId" = Some gid →
  ∃ first g,
    index0 (JArray (JObject props :: rest)) = Ok first ∧ groupId_of first = Ok g ∧
    (∀ base, revisionUrl (base +:+ "/") organism g = revise base organism (Value.to_string gid)) ∧
    (∀ returnUrl, ends_with_slash returnUrl = false →
       revisionUrl returnUrl organism g = revise returnUrl organism (Value.to_string gid)).
Proof.
  intros Hg. exists (Some (JObject props)), (Some gid). split_and!.
  - done.
  - simpl. by rewrite Hg.
  - intros base. unfold revisionUrl. by rewrite replace_trailing_slash_app.
  - intros r Hr. unfold revisionUrl. by rewrite replace_trailing_slash_id.
Qed.

Lemma C3_revisionUrl_witness :
  ∃ first g,
    index0 (JArray [JObject [("groupId", JNum 7)]]) = Ok first ∧ groupId_of first = Ok g ∧
    revisionUrl "https://api.example/" "flu" g
      = "https://api.example/flu/revise?groupId=7&dataUseTermsType=OPEN".
Proof.
  destruct (C3_revisionUrl "flu" [("groupId", JNum 7)] [] (JNum 7) eq_refl)
    as (first & g & H0 & Hg & Hslash & _).
  exists first, g. split_and!; [done..|]. exact (Hslash "https://api.example").
Defined.

(** ** Upload without its parameters (C4) *)

(** C4.  When [return-url], [organism] or [input-fasta] is absent from
    the query string, the upload adds the notification of missing
    parameters and returns: no other event (no token request, no fetch)
    is made, and references, store and local storage are as before. *)
Theorem C4_upload_missing_parameter env w :
  param env "return-url" = None ∨ param env "organism" = None ∨
  param env "input-fasta" = None →
  uploadMetadata env w = (Ok tt, with_log (λ l, l ++ [missing_parameters]) w).
Proof.
  intros H. unfold uploadMetadata. cbv zeta.
  destruct H as [-> | [-> | ->]]; simpl; rewrite ?orb_true_r; done.
Qed.

Lemma C4_upload_missing_parameter_witness :
  uploadMetadata example_env_no_fasta (example_world example_row)
    = (Ok tt, with_log (λ l, l ++ [missing_parameters]) (example_world example_row)).
Proof.
  apply C4_upload_missing_parameter. right. right. reflexivity.
Defined.

(** ** Persisting and restoring (C5) *)





(** ** Start-up (C6) *)

(** C6.  At start-up, a persisted snapshot replaces rows, columns,
    selection and source URL, and the mount hook asks for no table load;
    with nothing persisted and an [input-metadata] parameter, the
    parameter becomes the source URL and a load of it is requested. *)
Theorem C6_startup env w :
  (∀ S, localStorage w !! KEY = Some (stored S) → distinct_keys S →
     snapshot (handler (onMounted env) w).2 = Some S ∧
     ∃ evs, log (handler (onMounted env) w).2 = log w ++ evs ∧
            Forall (λ e, is_load e = false) evs) ∧
  (∀ u, localStorage w !! KEY = None → param env "input-metadata" = Some u → u ≠ "" →
     metadataUrl (mem (handler (onMounted env) w).2) = u ∧
     ∃ evs, log (handler (onMounted env) w).2 = log w ++ PapaParse u :: evs ∧
            Forall (λ e, is_load e = false) evs).
Proof.
  split.
  - intros S Hst Hd.
    destruct (mounted_restores env S w Hst Hd) as (ls & h' & Hall & Hk).
    split; [by eapply snapshot_restored|]. by destruct Hk as (_ & _ & Hlog).
  - intros u Hst Hp Hu.
    set (w1 := with_log (λ l, l ++ [PapaParse u])
                 (with_mem (λ m, {| metadataUrl := u; tableData := tableData m;
                                    allColumns := allColumns m;
                                    selectedColumns := selectedColumns m |}) w)).
    assert (keeps w1 (handler (onMounted env) w).2) as (Hm & _ & evs & Hlog & Hevs).
    { etrans; [|apply handler_keeps]. unfold onMounted.
      rewrite (run_bind (gets _) _ w (localStorage w !! KEY) w) by done.
      rewrite Hst, Hp. simpl truthy.
      destruct (String.eqb_spec u "") as [|_]; [done|]. simpl negb. cbv iota. simpl default.
      assert (((set_metadataUrl u;; loadMetadata) : M unit) w = (Ok tt, w1)) as Hrun.
      { unfold loadMetadata, mbind, M_bind. simpl.
        destruct (String.eqb_spec u "") as [|_]; done. }
      rewrite (run_bind _ _ _ _ _ Hrun).
      apply extends_keeps.
      destruct (hasAuthParams env); [apply frames_initializeAuthentication|reflexivity]. }
    rewrite Hm, Hlog. split; [done|]. exists evs. simpl. by rewrite <- app_assoc.
Qed.

Lemma C6_startup_witness :
  snapshot (handler (onMounted example_env)
              (reloaded_world (Some (stored example_snapshot)))).2
    = Some example_snapshot ∧
  metadataUrl (mem (handler (onMounted example_env) (reloaded_world None)).2)
    = "https://files.example/m.tsv".
Proof.
  split.
  - apply (proj1 (C6_startup example_env (reloaded_world (Some (stored example_snapshot))))
             example_snapshot).
    + vm_compute. reflexivity.
    + unfold distinct_keys. apply (bool_decide_unpack _). vm_compute. exact I.
  - apply (proj2 (C6_startup example_env (reloaded_world None))
             "https://files.example/m.tsv").
    + vm_compute. reflexivity.
    + vm_compute. reflexivity.
    + discriminate.
Defined.

(** ** A failed load (C7) *)


(** ** Clearing local storage (C8) *)

(** C8.  Clearing removes the stored snapshot and changes nothing in
    memory: references and store are as before and the watcher is not
    queued, so the snapshot in memory outlives the stored one. *)
Theorem C8_clear_keeps_memory w :
  let w' := (clearLocalStorage w).2 in
  localStorage w' !! KEY = None ∧ mem w' = mem w ∧ heap w' = heap w ∧
  queued w' = queued w ∧ snapshot w' = snapshot w.
Proof.
  simpl. split_and!; try done. apply lookup_delete_eq.
Qed.

(** ** Upload and the table (C9) *)

(** C9.  Whatever the environment answers and however the upload ends,
    after the upload handler the references are as before and every
    object of the store has the properties it had: the rows of the table
    are untouched, the synthesized [id] lives in new objects only. *)
Theorem C9_upload_keeps_rows env w :
  mem (handler (uploadMetadata env) w).2 = mem w ∧
  heap w ⊆ heap (handler (uploadMetadata env) w).2.
Proof.
  destruct (frames_handler (uploadMetadata env)
              (frames_weaken _ _ _ extends_keeps (frames_uploadMetadata env)) w)
    as (Hm & Hh & _).
  done.
Qed.

(** The scenario of one row and three columns, from the click to the
    success notification. *)
Example upload_end_to_end :
  log (handler (uploadMetadata example_env) (example_world example_row)).2 =
    [KeycloakNew (Some "https://auth.example") (Some "r") (Some "c");
     ConsoleLog "Initializing Keycloak authentication...";
     KeycloakInit "check-sso";
     ConsoleLog "Authentication result:";
     Toast "success" "Authentication Successful" "You are now authenticated";
     Fetch {| url := "https://api.example/user/groups"; method := "GET";
              authorization := Some "Bearer t"; form := [] |};
     Fetch {| url := "https://files.example/s.fasta"; method := "GET";
              authorization := None; form := [] |};
     Fetch {| url := "https://api.example/flu/revise?groupId=7&dataUseTermsType=OPEN";
              method := "POST"; authorization := Some "Bearer t";
              form :=
                [("metadataFile",
                  FilePart (Unparse [example_row ++ [("id", "X.1|S1")]]
                                    ["id"; "accessionVersion"; "SampleID"; "other"]
                                    (String (ascii_of_N 9) ""))
                           "metadata.tsv");
                 ("sequenceFile", FilePart (Fetched ">s1") "sequence.fasta");
                 ("description", FieldPart "metadataFile")] |};
     Toast "success" "Success" "Metadata uploaded successfully"].
Proof. vm_compute. reflexivity. Qed.

(** ** A completed load (C10) *)

(** C10.  A load that completes with no row empties the row list and
    keeps columns and selection; one that completes with rows takes the
    columns (field and label) and the selection from the keys of the first
    row, and the table holds the rows delivered. *)
Theorem C10_complete w :
  (tableData (mem (handler (loadMetadata_complete []) w).2) = [] ∧
   allColumns (mem (handler (loadMetadata_complete []) w).2) = allColumns (mem w) ∧
   selectedColumns (mem (handler (loadMetadata_complete []) w).2) = selectedColumns (mem w)) ∧
  (∀ first rest,
     allColumns (mem (handler (loadMetadata_complete (first :: rest)) w).2)
       = map (λ f, {| field := f; header := f |}) (Object_keys first) ∧
     selectedColumns (mem (handler (loadMetadata_complete (first :: rest)) w).2)
       = Object_keys first ∧
     (rows ← snapshot (handler (loadMetadata_complete (first :: rest)) w).2;
      Some (snap_rows rows)) = Some (first :: rest)).
Proof.
  split.
  - destruct (handler_keeps (loadMetadata_complete []) w) as (-> & _). done.
  - intros first rest.
    destruct (handler_keeps (loadMetadata_complete (first :: rest)) w) as (Hm & Hh & _).
    destruct (mapM_alloc (first :: rest) w) as (ls & h' & Hrun & Hsub & Hall).
    assert (loadMetadata_complete (first :: rest) w =
            (Ok tt,
             with_log (λ l, l ++ [Toast "success" "Success" "Metadata loaded successfully"])
               (with_queued true
                 (with_mem (λ m, {| metadataUrl := metadataUrl m; tableData := ls;
                     allColumns := map (λ f, {| field := f; header := f |}) (Object_keys first);
                     selectedColumns := Object_keys first |})
                   (with_heap (λ _, h') w))))) as Hc.
    { unfold loadMetadata_complete. by rewrite (run_bind _ _ _ _ _ Hrun). }
    rewrite Hc in Hm, Hh. simpl in Hm, Hh.
    unfold snapshot. rewrite Hm. simpl. split_and!; [done..|].
    assert (mapM (λ l, heap (handler (loadMetadata_complete (first :: rest)) w).2 !! l) ls
            = Some (first :: rest)) as ->; [|done].
    apply mapM_Some. eapply Forall2_impl; [exact Hall|]. simpl.
    intros l o Hl. by eapply lookup_weaken.
Qed.

(** ** Further properties of the script *)

(** *** The requests of an upload *)

Global Instance only_preorder P : PreOrder (only P).
Proof.
  split.
  - intros w. exists []. by rewrite app_nil_r.
  - intros w1 w2 w3 (e1 & H1 & F1) (e2 & H2 & F2).
    exists (e1 ++ e2). rewrite H2, H1, app_assoc. split; [done|]. by apply Forall_app.
Qed.

Global Instance same_flag_preorder : PreOrder same_flag.
Proof. split; [by intros w|]. intros w1 w2 w3 H1 H2. unfold same_flag in *. congruence. Qed.

Lemma only_same_log P w w' : log w' = log w → only P w w'.
Proof. intros H. exists []. by rewrite app_nil_r. Qed.

Lemma only_emit (P : Event → Prop) e w : P e → only P w (with_log (λ l, l ++ [e]) w).
Proof. intros H. exists [e]. split; [done|]. by constructor. Qed.

Lemma frames_alloc (R : relation World) o :
  (∀ w f, R w (with_heap f w)) → frames R (alloc o).
Proof. intros H w. apply H. Qed.

(** A computation at one world, then any continuation. *)
Lemma frames_bind_at {A B} (R : relation World) `{!PreOrder R} (m : M A) (f : A → M B) w :
  R w (m w).2 → (∀ a, frames R (f a)) → R w ((m ≫= f) w).2.
Proof.
  intros Hm Hf. unfold mbind, M_bind.
  destruct (m w) as [[a| e |] w1]; simpl in *; [|done..].
  etrans; [exact Hm|apply Hf].
Qed.

(** The shape of a computation, with [prim] for the steps that write. *)
Ltac frame_with prim :=
  lazymatch goal with
  | |- frames ?R (_ ≫= _) => apply (frames_bind R); [|intros ?]
  | |- frames ?R (mret _) => apply (frames_ret R)
  | |- frames ?R (gets _) => apply (frames_gets R)
  | |- frames ?R (throw _) => apply (frames_throw R)
  | |- frames ?R beyond => apply (frames_beyond R)
  | |- frames ?R (lift _) => apply (frames_lift R)
  | |- frames ?R (await _) => apply (frames_await R)
  | |- frames ?R (deref _) => apply (frames_deref R)
  | |- frames ?R (try_catch _ _) => apply (frames_try_catch R); [|intros ?]
  | |- frames ?R (finally _ _) => apply (frames_finally R)
  | |- frames ?R (mapM _ _) => apply (frames_mapM R); intros ?
  | |- frames ?R (alloc _) => intros ?; prim
  | |- frames ?R (modify _) => intros ?; prim
  | |- frames ?R (emit _) => intros ?; prim
  | |- frames ?R (toast_add _ _ _) => intros ?; prim
  | |- frames ?R (console_log _) => intros ?; prim
  | |- frames ?R (console_error _) => intros ?; prim
  | |- frames ?R (set_isAuthenticated _) => intros ?; prim
  | |- frames ?R (set_authenticationInProgress _) => intros ?; prim
  | |- frames ?R (set_keycloak _) => intros ?; prim
  | |- frames ?R (set_metadataUrl _) => intros ?; prim
  | |- frames ?R (set_tableData _) => intros ?; prim
  | |- frames ?R (set_allColumns _) => intros ?; prim
  | |- frames ?R (set_selectedColumns _) => intros ?; prim
  | |- frames _ (if ?b then _ else _) => destruct b
  | |- frames _ (match ?x with _ => _ end) => destruct x
  end.

(** Writes under [only P]: the log is kept, or grows by an event with [P]. *)
Ltac only_prim :=
  first [ by apply only_same_log
        | apply only_emit; first [ done | by intros ? [=] ] ].

Section Quiet.
Context (P : Event → Prop) (HP : ∀ e, is_fetch e = false → P e).

Lemma only_emit_quiet e w : is_fetch e = false → only P w (with_log (λ l, l ++ [e]) w).
Proof. intros H. apply only_emit. by apply HP. Qed.

Ltac quiet_prim :=
  first [ by apply only_same_log | by apply only_emit_quiet ].

Lemma quiet_keycloak_new env : frames (only P) (keycloak_new env).
Proof. unfold keycloak_new. repeat frame_with quiet_prim. Qed.

Lemma quiet_keycloak_init env s : frames (only P) (keycloak_init env s).
Proof. unfold keycloak_init. repeat frame_with quiet_prim. Qed.

Lemma quiet_initializeAuthentication env : frames (only P) (initializeAuthentication env).
Proof.
  unfold initializeAuthentication.
  repeat (frame_with quiet_prim || apply quiet_keycloak_new || apply quiet_keycloak_init).
Qed.

Lemma quiet_validateAndRefreshToken env : frames (only P) (validateAndRefreshToken env).
Proof. unfold validateAndRefreshToken. repeat frame_with quiet_prim. Qed.

Lemma quiet_ensureAuthenticated env : frames (only P) (ensureAuthenticated env).
Proof.
  unfold ensureAuthenticated.
  repeat (frame_with quiet_prim || apply quiet_initializeAuthentication
          || apply quiet_validateAndRefreshToken).
Qed.

Lemma quiet_upload_row l : frames (only P) (upload_row l).
Proof.
  unfold upload_row, get_prop, set_prop, call_hasOwnProperty.
  repeat frame_with quiet_prim.
Qed.

Lemma quiet_dataForUpload : frames (only P) dataForUpload.
Proof. unfold dataForUpload. repeat (frame_with quiet_prim || apply quiet_upload_row). Qed.

End Quiet.

Lemma upload_event_quiet env e : is_fetch e = false → upload_event env e.
Proof. intros H r ->. done. Qed.

Ltac shape_prim env :=
  first [ by apply only_same_log
        | apply only_emit; apply (upload_event_quiet env); reflexivity
        | apply only_emit; intros ? [= <-]; left; by eexists
        | apply only_emit; intros ? [= <-]; right; by left
        | apply only_emit; intros ? [= <-]; right; right; by do 5 eexists ].

(** X1.  Every request an upload makes is one of three: the group lookup
    under the return URL with the bearer token, the fetch of the sequence
    file without any authorization header, or the POST to the revise URL
    with the bearer token and the three form parts (the table as
    [metadata.tsv], tab-delimited under the upload header, the fetched
    sequence as [sequence.fasta], and the description). *)
Theorem X1_upload_requests env :
  frames (only (upload_event env)) (uploadMetadata env).
Proof.
  unfold uploadMetadata. cbv zeta.
  repeat (frame_with ltac:(shape_prim env)
          || apply (quiet_ensureAuthenticated _ (upload_event_quiet env))
          || apply (quiet_dataForUpload (upload_event env))).
Qed.

(** X2.  The upload of the earlier version makes the same three kinds
    of requests. *)
Theorem X2_legacy_upload_requests env :
  frames (only (upload_event env)) (Legacy.uploadMetadata env).
Proof.
  unfold Legacy.uploadMetadata. cbv zeta.
  repeat (frame_with ltac:(shape_prim env)
          || apply (quiet_keycloak_new _ (upload_event_quiet env))
          || apply (quiet_keycloak_init _ (upload_event_quiet env))
          || apply (quiet_dataForUpload (upload_event env))).
Qed.

(** *** Exceptions, the busy flag and the identity client *)

Lemma safe_ret {A} (a : A) : safe (mret a).
Proof. by intros w e. Qed.
Lemma safe_gets {A} (f : World → A) : safe (gets f).
Proof. by intros w e. Qed.
Lemma safe_modify f : safe (modify f).
Proof. by intros w e. Qed.
Lemma safe_bind {A B} (m : M A) (f : A → M B) :
  safe m → (∀ a, safe (f a)) → safe (m ≫= f).
Proof.
  intros Hm Hf w e. specialize (Hm w). unfold mbind, M_bind.
  destruct (m w) as [[a| e' |] w1]; simpl in *; [apply Hf|by destruct (Hm e')|done].
Qed.
Lemma safe_try_catch {A} (m : M A) h : (∀ e, safe (h e)) → safe (try_catch m h).
Proof.
  intros Hh w e. unfold try_catch.
  destruct (m w) as [[a| e' |] w1]; simpl; [done|apply Hh|done].
Qed.
Lemma safe_finally {A} (m : M A) f : safe m → safe f → safe (finally m f).
Proof.
  intros Hm Hf w e. unfold finally. specialize (Hm w).
  destruct (m w) as [r w1]. specialize (Hf w1).
  destruct (f w1) as [[[]| e' |] w2]; simpl in *; [apply Hm|by destruct (Hf e')|done].
Qed.

Ltac safe_step :=
  lazymatch goal with
  | |- safe (_ ≫= _) => apply safe_bind; [|intros ?]
  | |- safe (mret _) => apply safe_ret
  | |- safe (gets _) => apply safe_gets
  | |- safe (try_catch _ _) => apply safe_try_catch; intros ?
  | |- safe (finally _ _) => apply safe_finally
  | |- safe (modify _) => apply safe_modify
  | |- safe (emit _) => apply safe_modify
  | |- safe (toast_add _ _ _) => apply safe_modify
  | |- safe (console_log _) => apply safe_modify
  | |- safe (console_error _) => apply safe_modify
  | |- safe (set_isAuthenticated _) => apply safe_modify
  | |- safe (set_authenticationInProgress _) => apply safe_modify
  | |- safe (set_keycloak _) => apply safe_modify
  | |- safe (if ?b then _ else _) => destruct b
  | |- safe (match ?x with _ => _ end) => destruct x
  end.

Lemma safe_initializeAuthentication env : safe (initializeAuthentication env).
Proof. unfold initializeAuthentication. repeat safe_step. Qed.







(** X4.  When [ensureAuthenticated] answers true, the indicator
    [isAuthenticated] is set and the client exists and is authenticated. *)
Theorem X4_ensureAuthenticated_true env w :
  (ensureAuthenticated env w).1 = Ok true →
  isAuthenticated (auth (ensureAuthenticated env w).2) = true ∧
  ∃ k, keycloak (auth (ensureAuthenticated env w).2) = Some k ∧ authenticated k = true.
Proof.
  unfold ensureAuthenticated, validateAndRefreshToken, initializeAuthentication,
    keycloak_init, keycloak_new, toast_add, console_log, console_error, emit,
    set_isAuthenticated, set_authenticationInProgress, set_keycloak.
  unfold mbind, M_bind, mret, M_ret, try_catch, finally, await, gets, modify, throw.
  destruct w as [m [ia ip kc] h ls q lg]. simpl.
  destruct (hasAuthParams env); simpl; [|done].
  destruct ia, kc as [[[] t]|], ip, (kc_init env) as [[]|], (kc_updateToken env) as [[]|],
    (kc_login env) as [[]|]; simpl; intros; try done; eauto.
Qed.

Lemma X4_ensureAuthenticated_true_witness :
  isAuthenticated (auth (ensureAuthenticated example_env (example_world example_row)).2) = true ∧
  ∃ k, keycloak (auth (ensureAuthenticated example_env (example_world example_row)).2) = Some k ∧
       authenticated k = true.
Proof.
  apply (X4_ensureAuthenticated_true example_env (example_world example_row)).
  vm_compute. reflexivity.
Defined.

Ltac flag_prim := (by unfold same_flag).

Lemma flag_initializeAuthentication env : frames same_flag (initializeAuthentication env).
Proof.
  intros w. unfold initializeAuthentication.
  rewrite (run_bind (gets _) _ w (authenticationInProgress (auth w)) w) by done.
  destruct (negb (hasAuthParams env) || authenticationInProgress (auth w)) eqn:Hg; [done|].
  apply orb_false_elim in Hg as [_ Hp].
  unfold mbind at 1, M_bind at 1. cbn [set_authenticationInProgress modify].
  unfold finally. destruct (try_catch _ _ _) as [r w1].
  unfold same_flag. simpl. by rewrite Hp.
Qed.

Lemma flag_ensureAuthenticated env : frames same_flag (ensureAuthenticated env).
Proof.
  unfold ensureAuthenticated, validateAndRefreshToken.
  repeat (frame_with flag_prim || apply flag_initializeAuthentication).
Qed.

Lemma flag_flush : frames same_flag flush.
Proof. unfold flush, watch_callback. repeat frame_with flag_prim. Qed.

(** X5.  The session check, an upload and the mount hook leave
    [authenticationInProgress] as they found it, however they end: the
    flag that disables the upload button does not stay set. *)
Theorem X5_busy_flag_restored env :
  frames same_flag (initializeAuthentication env) ∧
  frames same_flag (handler (uploadMetadata env)) ∧
  frames same_flag (handler (onMounted env)).
Proof.
  split_and!.
  - apply flag_initializeAuthentication.
  - unfold handler. apply (frames_finally same_flag); [|apply flag_flush].
    unfold uploadMetadata, dataForUpload, upload_row, get_prop, set_prop,
      call_hasOwnProperty. cbv zeta.
    repeat (frame_with flag_prim || apply flag_ensureAuthenticated).
  - unfold handler. apply (frames_finally same_flag); [|apply flag_flush].
    unfold onMounted, restore_state, loadMetadata. cbv zeta.
    repeat (frame_with flag_prim || apply flag_initializeAuthentication).
Qed.

Ltac nonew_prim :=
  first [ by apply only_same_log | apply only_emit; reflexivity ].

Lemma nonew_validateAndRefreshToken env : frames (only no_new) (validateAndRefreshToken env).
Proof. unfold validateAndRefreshToken. repeat frame_with nonew_prim. Qed.

Lemma nonew_keycloak_init env s : frames (only no_new) (keycloak_init env s).
Proof. unfold keycloak_init. repeat frame_with nonew_prim. Qed.

Lemma try_catch_ext {A} (m m' : M A) h w : m w = m' w → try_catch m h w = try_catch m' h w.
Proof. intros H. unfold try_catch. by rewrite H. Qed.

Lemma finally_ext {A} (m m' : M A) f w : m w = m' w → finally m f w = finally m' f w.
Proof. intros H. unfold finally. by rewrite H. Qed.

Lemma nonew_initializeAuthentication env w :
  keycloak (auth w) ≠ None → only no_new w (initializeAuthentication env w).2.
Proof.
  intros Hk. unfold initializeAuthentication.
  rewrite (run_bind (gets _) _ w (authenticationInProgress (auth w)) w) by done.
  destruct (negb (hasAuthParams env) || authenticationInProgress (auth w)); [reflexivity|].
  unfold mbind at 1, M_bind at 1. cbn [set_authenticationInProgress modify].
  set (w1 := with_auth _ w).
  assert (only no_new w w1) as H1 by by apply only_same_log.
  etrans; [exact H1|].
  destruct (keycloak (auth w)) as [k|] eqn:Hkw; [|done].
  assert (keycloak (auth w1) = Some k) as Hk1 by done. clearbody w1.
  erewrite finally_ext.
  2:{ apply try_catch_ext.
      rewrite (run_bind (gets _) _ w1 (keycloak (auth w1)) w1) by done.
      rewrite Hk1. reflexivity. }
  match goal with |- only _ _ (?c w1).2 => assert (frames (only no_new) c) as Hc end.
  { repeat (frame_with nonew_prim || apply nonew_keycloak_init). }
  apply Hc.
Qed.

Lemma nonew_ensureAuthenticated env w :
  keycloak (auth w) ≠ None → only no_new w (ensureAuthenticated env w).2.
Proof.
  intros Hk. unfold ensureAuthenticated.
  destruct (hasAuthParams env); cbv beta iota delta [negb].
  2:{ match goal with |- only _ _ (?c w).2 => assert (frames (only no_new) c) as Hc end.
      { repeat frame_with nonew_prim. }
      apply Hc. }
  rewrite (run_bind (gets _) _ w (isAuthenticated (auth w)) w) by done.
  rewrite (run_bind (gets _) _ w (keycloak (auth w)) w) by done.
  destruct (keycloak (auth w)) as [k|]; [|done].
  match goal with |- only _ _ (?c w).2 => assert (frames (only no_new) c) as Hc end.
  { destruct (isAuthenticated (auth w) && from_option authenticated false (Some k)).
    - apply nonew_validateAndRefreshToken.
    - repeat frame_with nonew_prim. }
  apply Hc.
Qed.

(** X6.  Once the identity client exists, neither the session check nor
    an upload makes another one. *)
Theorem X6_client_created_once env w :
  keycloak (auth w) ≠ None →
  only no_new w (initializeAuthentication env w).2 ∧
  only no_new w (uploadMetadata env w).2.
Proof.
  intros Hk. split; [by apply nonew_initializeAuthentication|].
  unfold uploadMetadata. cbv zeta.
  destruct (_ || _).
  - apply only_emit. reflexivity.
  - apply (frames_bind_at (only no_new)); [by apply nonew_ensureAuthenticated|].
    intros b. unfold dataForUpload, upload_row, get_prop, set_prop, call_hasOwnProperty.
    repeat frame_with nonew_prim.
Qed.

Lemma X6_client_created_once_witness :
  only no_new signed_in_world (initializeAuthentication example_env signed_in_world).2 ∧
  only no_new signed_in_world (uploadMetadata example_env signed_in_world).2.
Proof.
  apply (X6_client_created_once example_env signed_in_world). simpl. discriminate.
Defined.

(** X7.  When one of the five authentication parameters is missing, an
    upload only adds one error notification: nothing else is logged,
    requested or changed. *)
Theorem X7_upload_without_auth_parameters env w :
  hasAuthParams env = false →
  ∃ detail, uploadMetadata env w
            = (Ok tt, with_log (λ l, l ++ [Toast "error" "Error" detail]) w).
Proof.
  intros Hp. unfold uploadMetadata. cbv zeta.
  destruct (_ || _); [by eexists|].
  unfold ensureAuthenticated. rewrite Hp. by eexists.
Qed.

Lemma X7_upload_without_auth_parameters_witness :
  ∃ detail, uploadMetadata example_env_no_fasta signed_in_world
            = (Ok tt, with_log (λ l, l ++ [Toast "error" "Error" detail]) signed_in_world).
Proof.
  apply (X7_upload_without_auth_parameters example_env_no_fasta signed_in_world).
  reflexivity.
Defined.

(** X8.  Unless [ensureAuthenticated] answers true, the upload makes no
    request at all. *)
Theorem X8_upload_fetches_only_when_authenticated env w :
  (ensureAuthenticated env w).1 ≠ Ok true →
  only (λ e, is_fetch e = false) w (uploadMetadata env w).2.
Proof.
  intros Hne. unfold uploadMetadata. cbv zeta.
  destruct (_ || _); [by apply only_emit|].
  pose proof (quiet_ensureAuthenticated (λ e, is_fetch e = false) (λ e H, H) env w) as Hq.
  unfold mbind, M_bind.
  destruct (ensureAuthenticated env w) as [[[]| e |] w1]; simpl in *; done.
Qed.

Lemma X8_upload_fetches_only_when_authenticated_witness :
  only (λ e, is_fetch e = false) (example_world example_row)
       (uploadMetadata example_env_no_fasta (example_world example_row)).2.
Proof.
  apply (X8_upload_fetches_only_when_authenticated example_env_no_fasta
           (example_world example_row)).
  vm_compute. discriminate.
Defined.

(** X9.  With the upload parameters present and the client
    authenticated, when the group lookup or the fetch of the sequence file
    is rejected or answers with a status that is not ok, the upload makes
    those two requests, reports the upload error and posts nothing. *)
Theorem X9_upload_lookup_fails env w w1 k :
  truthy (param env "return-url") = true → truthy (param env "organism") = true →
  truthy (param env "input-fasta") = true →
  ensureAuthenticated env w = (Ok true, w1) → keycloak (auth w1) = Some k →
  lookup_fails env (token k) →
  uploadMetadata env w = (Ok tt, with_log (λ l, l ++ upload_failure env (token k)) w1).
Proof.
  intros Hr Ho Hf Hauth Hk Hfail. unfold uploadMetadata. cbv zeta.
  rewrite Hr, Ho, Hf. cbn [negb orb].
  rewrite (run_bind _ _ _ _ _ Hauth). cbn [negb].
  unfold try_catch.
  rewrite (run_bind (gets _) _ w1 (keycloak (auth w1)) w1) by done.
  rewrite Hk. unfold mbind at 1, M_bind at 1. cbn [mret M_ret].
  unfold lookup_fails, upload_failure in *.
  fold (groups_request env (token k)). fold (fasta_request env).
  unfold mbind, M_bind, emit, modify, await, throw, mret, M_ret, console_error, toast_add,
    emit, modify. cbn [fst snd].
  destruct (fetch env (groups_request env (token k))) as [g|e1];
    destruct (fetch env (fasta_request env)) as [f|e2]; cbn;
    try (destruct Hfail as [-> | Hf2]; cbn);
    try (destruct (ok g); cbn; try rewrite Hf2; cbn);
    (f_equal; unfold with_log; cbn; f_equal; by rewrite <- !app_assoc).
Qed.

Lemma X9_upload_lookup_fails_witness :
  uploadMetadata failing_env signed_in_world
    = (Ok tt, with_log (λ l, l ++ upload_failure failing_env (Some "t"))
                       (ensureAuthenticated failing_env signed_in_world).2).
Proof.
  apply (X9_upload_lookup_fails failing_env signed_in_world
           (ensureAuthenticated failing_env signed_in_world).2
           {| authenticated := true; token := Some "t" |}).
  - reflexivity.
  - reflexivity.
  - reflexivity.
  - vm_compute. reflexivity.
  - vm_compute. reflexivity.
  - vm_compute. exact I.
Defined.

(** *** Editing a cell *)

Lemma snapshot_ext w w' : mem w' = mem w → heap w' = heap w → snapshot w' = snapshot w.
Proof. intros Hm Hh. unfold snapshot. by rewrite Hm, Hh. Qed.













(** *** A completed load and the columns *)

Lemma loadMetadata_complete_run data w :
  ∃ ls h', loadMetadata_complete data w = (Ok tt, completed data ls h' w) ∧
           Forall2 (λ l o, h' !! l = Some o) ls data.
Proof.
  destruct (mapM_alloc data w) as (ls & h' & Hrun & _ & Hall).
  exists ls, h'. split; [|done].
  unfold loadMetadata_complete. rewrite (run_bind _ _ _ _ _ Hrun).
  destruct data; reflexivity.
Qed.





Lemma filter_all {A} (p : A → bool) l : Forall (λ x, p x = true) l → List.filter p l = l.
Proof.
  induction 1 as [|x l Hx _ IH]; [done|]. simpl. by rewrite Hx, IH.
Qed.

Lemma existsb_eqb (s : string) l : existsb (λ x, String.eqb x s) l = true ↔ s ∈ l.
Proof.
  induction l as [|x l IH]; simpl.
  - split; [done|by intros ?%elem_of_nil].
  - rewrite orb_true_iff, IH, elem_of_cons, String.eqb_eq.
    split; (intros [H|H]; [left|right]); done.
Qed.

(** X14.  After a load that completes with rows, every column is
    visible: the computed [visibleColumns] is the list of all columns. *)
Theorem X14_all_columns_visible_after_load first rest w :
  visibleColumns (mem (handler (loadMetadata_complete (first :: rest)) w).2)
    = allColumns (mem (handler (loadMetadata_complete (first :: rest)) w).2).
Proof.
  destruct (handler_keeps (loadMetadata_complete (first :: rest)) w) as (-> & _).
  destruct (loadMetadata_complete_run (first :: rest) w) as (ls & h' & -> & _).
  unfold visibleColumns. simpl. apply filter_all.
  apply Forall_forall. intros c Hc. apply existsb_eqb.
  unfold columns_of in Hc. apply list_elem_of_fmap in Hc as (f & -> & Hf). done.
Qed.

(** *** The upload header and the id column *)

Lemma filter_filter_id {A} (p : A → bool) l : List.filter p (List.filter p l) = List.filter p l.
Proof.
  induction l as [|x l IH]; [done|]. simpl. destruct (p x) eqn:Hx; simpl; [|done].
  by rewrite Hx, IH.
Qed.

(** X15.  In every upload header exactly one column lowers to [id] (the
    first), no column is [submissionId], and making the upload header of
    an upload header changes nothing. *)
Theorem X15_header_has_one_id fields :
  List.filter (λ h, String.eqb (toLowerCase h) "id") (headersForUpload fields) = ["id"] ∧
  ("submissionId" ∉ headersForUpload fields) ∧
  headersForUpload (headersForUpload fields) = headersForUpload fields.
Proof.
  unfold headersForUpload. fold keeps_field. split_and!.
  - simpl. f_equal. induction fields as [|h fields IH]; [done|]. simpl.
    unfold keeps_field at 1. destruct (String.eqb (toLowerCase h) "id") eqn:Hh; simpl; [done|].
    destruct (String.eqb h "submissionId"); simpl; [done|]. by rewrite Hh.
  - intros [?|Hin]%elem_of_cons; [done|].
    apply list_elem_of_In, filter_In in Hin as [_ Hk]. done.
  - simpl. by rewrite filter_filter_id.
Qed.

(** X16.  A column whose name lowers to [id] without being [id] (such
    as [ID]) is left out of the upload header, and its value is not used
    for the id: on a row without [id] and without both source fields the
    upload row has the empty id, and keeps the value under the old name. *)
Theorem X16_other_spellings_of_id_are_dropped l w o h x fields :
  heap w !! l = Some o → Value.get o "hasOwnProperty" = None →
  toLowerCase h = "id" → h ≠ "id" → Value.get o h = Some x →
  Value.get o "id" = None →
  truthy (Value.get o "accessionVersion") && truthy (Value.get o "SampleID") = false →
  (h ∉ headersForUpload fields) ∧
  ∃ o', upload_row l w = (Ok (fresh (dom (heap w))),
                          with_heap (insert (fresh (dom (heap w))) o') w) ∧
        Value.get o' "id" = Some "" ∧ Value.get o' h = Some x.
Proof.
  intros Hl Hm Hh Hne Hx Hid Hb. split.
  - unfold headersForUpload. intros [?|Hin]%elem_of_cons; [done|].
    apply list_elem_of_In, filter_In in Hin as [_ Hk]. by rewrite Hh in Hk.
  - rewrite (upload_row_eq l w o Hl). cbv zeta. rewrite Hb, Hm, Hid.
    eexists. split; [done|]. split; [apply get_set_eq|]. by rewrite get_set_ne.
Qed.

Lemma X16_other_spellings_of_id_are_dropped_witness :
  ("ID" ∉ headersForUpload ["ID"; "other"]) ∧
  ∃ o', upload_row 1%positive (example_world capital_id_row)
          = (Ok (fresh (dom (heap (example_world capital_id_row)))),
             with_heap (insert (fresh (dom (heap (example_world capital_id_row)))) o')
                       (example_world capital_id_row)) ∧
        Value.get o' "id" = Some "" ∧ Value.get o' "ID" = Some "7".
Proof.
  apply (X16_other_spellings_of_id_are_dropped 1%positive (example_world capital_id_row)
           capital_id_row "ID" "7" ["ID"; "other"]).
  - reflexivity.
  - reflexivity.
  - reflexivity.
  - discriminate.
  - reflexivity.
  - reflexivity.
  - reflexivity.
Defined.

(** *** The earlier version *)

(** X17.  The upload of the earlier version, however it ends, leaves
    the references, every object of the store, local storage and the
    watcher queue as they were, and asks for no table load. *)
Theorem X17_legacy_upload_keeps_rows env : frames extends (Legacy.uploadMetadata env).
Proof.
  unfold Legacy.uploadMetadata. cbv zeta.
  repeat (frame_step || apply frames_keycloak_new || apply frames_keycloak_init
          || apply frames_dataForUpload || apply (frames_deref extends)).
Qed.

Lemma bind_ret_unit (m : M unit) w : (m ≫= λ _, mret tt) w = m w.
Proof. unfold mbind, M_bind. by destruct (m w) as [[[]| |] w1]. Qed.

(** X18.  Without the five authentication parameters the mount hook
    does what the mount hook of the earlier version does. *)
Theorem X18_legacy_mount_is_mount_without_auth env w :
  hasAuthParams env = false → onMounted env w = Legacy.onMounted env w.
Proof.
  intros Hp. unfold onMounted, Legacy.onMounted. rewrite Hp. cbv zeta.
  rewrite !(run_bind (gets _) _ w (localStorage w !! KEY) w) by done.
  apply bind_ret_unit.
Qed.

Lemma X18_legacy_mount_is_mount_without_auth_witness :
  onMounted example_env_no_fasta (reloaded_world None)
    = Legacy.onMounted example_env_no_fasta (reloaded_world None).
Proof.
  apply (X18_legacy_mount_is_mount_without_auth example_env_no_fasta (reloaded_world None)).
  reflexivity.
Defined.

(** *** Clearing storage, the login and the upload rows *)



(** X20.  With a client that is not authenticated, [ensureAuthenticated]
    asks for the interactive login with the current page as redirect URI
    and answers false, whether the login call resolves or rejects; it
    makes no request and keeps the client. *)
Theorem X20_login_requested env w k :
  hasAuthParams env = true → keycloak (auth w) = Some k → authenticated k = false →
  (ensureAuthenticated env w).1 = Ok false ∧
  ∃ evs, log (ensureAuthenticated env w).2 = log w ++ KeycloakLogin (href env) :: evs ∧
         Forall (λ e, is_fetch e = false) evs ∧
         keycloak (auth (ensureAuthenticated env w).2) = Some k.
Proof.
  intros Hp Hk Ha.
  unfold ensureAuthenticated, validateAndRefreshToken, toast_add, console_error, emit,
    set_isAuthenticated.
  rewrite Hp.
  unfold mbind, M_bind, mret, M_ret, try_catch, await, gets, modify, throw.
  destruct w as [m [ia ip kc] h ls q lg]. simpl in Hk. subst kc.
  destruct k as [a t]. simpl in Ha. subst a. simpl. rewrite andb_false_r.
  destruct (kc_login env) as [[]|e]; simpl.
  - split; [done|]. exists []. by split_and!.
  - split; [done|]. eexists. split_and!; [by rewrite <- !app_assoc| |done].
    repeat constructor.
Qed.

Lemma X20_login_requested_witness :
  (ensureAuthenticated example_env signed_out_world).1 = Ok false ∧
  ∃ evs, log (ensureAuthenticated example_env signed_out_world).2
           = log signed_out_world ++ KeycloakLogin (href example_env) :: evs ∧
         Forall (λ e, is_fetch e = false) evs ∧
         keycloak (auth (ensureAuthenticated example_env signed_out_world).2)
           = Some {| authenticated := false; token := None |}.
Proof.
  apply (X20_login_requested example_env signed_out_world
           {| authenticated := false; token := None |}); reflexivity.
Defined.

(** X21.  A session check that runs sets [isAuthenticated] to the answer
    of the identity provider, and to false when the check fails. *)
Theorem X21_session_check_sets_indicator env w :
  hasAuthParams env = true → authenticationInProgress (auth w) = false →
  isAuthenticated (auth (initializeAuthentication env w).2)
    = match kc_init env with Resolve b => b | Reject _ => false end.
Proof.
  intros Hp Hf.
  unfold initializeAuthentication, keycloak_init, keycloak_new, toast_add, console_log,
    console_error, emit, set_isAuthenticated, set_authenticationInProgress, set_keycloak.
  rewrite Hp.
  unfold mbind, M_bind, mret, M_ret, try_catch, finally, await, gets, modify, throw.
  destruct w as [m [ia ip kc] h ls q lg]. simpl in Hf. subst ip. simpl.
  destruct kc as [k|], (kc_init env) as [[]|]; reflexivity.
Qed.

Lemma X21_session_check_sets_indicator_witness :
  isAuthenticated (auth (initializeAuthentication example_env (example_world example_row)).2)
    = true.
Proof.
  apply (X21_session_check_sets_indicator example_env (example_world example_row));
    reflexivity.
Defined.

(** X22.  On a table none of whose rows has a property named
    [hasOwnProperty], the upload row set is built: one new object per row,
    in order, made by the id rule, with the references unchanged and every
    object of the store as it was. *)
Theorem X22_upload_rows_follow_rule w S :
  snapshot w = Some S →
  Forall (λ o : list (string * string), Value.get o "hasOwnProperty" = None) (snap_rows S) →
  ∃ ls w', dataForUpload w = (Ok ls, w') ∧ mem w' = mem w ∧ heap w ⊆ heap w' ∧
           Forall2 (λ l o, ∃ o', heap w' !! l = Some o' ∧ id_rule o o') ls (snap_rows S).
Proof.
  unfold snapshot. intros HS Hm.
  destruct (mapM _ (tableData (mem w))) as [rs|] eqn:Hrs; [|done].
  simpl in HS. injection HS as <-. simpl in Hm. apply mapM_Some in Hrs.
  destruct (upload_rows_id _ _ w Hrs Hm) as (ls & w' & Hrun & Hext & Hall).
  exists ls, w'. unfold dataForUpload.
  rewrite (run_bind (gets _) _ w (tableData (mem w)) w) by done.
  destruct Hext as ((Hmem & Hheap & _) & _). by split_and!.
Qed.

Lemma X22_upload_rows_follow_rule_witness :
  ∃ ls w', dataForUpload (example_world example_row) = (Ok ls, w') ∧
           mem w' = mem (example_world example_row) ∧
           heap (example_world example_row) ⊆ heap w' ∧
           Forall2 (λ l o, ∃ o', heap w' !! l = Some o' ∧ id_rule o o') ls [example_row].
Proof.
  apply (X22_upload_rows_follow_rule (example_world example_row) example_snapshot).
  - reflexivity.
  - repeat constructor.
Defined.
